(** * botVGC: a heuristic player for random doubles battles

    A shallow embedding of [src/botVGC.py] (class [VGCHeuristicsRandom]):
    the move classifier, the single-target and spread scorers, the ally
    safety oracle, the per-opponent memory and the per-turn orchestrator.

    Modelling conventions.
    - Python [float] scores are exact rationals ([Q]); equalities between
      scores are stated with [==] ([Qeq]).  Rounding of IEEE doubles is not
      part of the model; their range is, where the code divides two
      integers ([truediv]).
    - Python [int] is [Z]; [str] is [string]; [None]-able attributes are
      [option]; a [set] of identifiers is a [gset string]; a [dict] is a
      [gmap].
    - Objects owned by the battle client (moves, combatants, the battle
      snapshot) are records holding exactly the attributes the bot reads.
    - Calls into the battle client (type chart, order constructors, the
      random chooser) are section variables; the order constructors and
      the random chooser may raise. *)

From Stdlib Require Import ZArith QArith Qabs Lqa String Ascii List Bool.
From stdpp Require Import gmap strings list.
Import ListNotations.

Local Open Scope string_scope.

(** ** Strings *)

(** [c.lower()] on one ASCII character. *)
Definition lower_ascii (c : ascii) : ascii :=
  let n := nat_of_ascii c in
  if Nat.leb 65 n && Nat.leb n 90 then ascii_of_nat (n + 32) else c.

(** [s.lower()], on ASCII identifiers. *)
Fixpoint lower (s : string) : string :=
  match s with
  | EmptyString => EmptyString
  | String c r => String (lower_ascii c) (lower r)
  end.

(** [k in s] on strings: [k] occurs in [s] as a substring. *)
Fixpoint contains (k s : string) : bool :=
  String.prefix k s ||
  match s with
  | EmptyString => false
  | String _ r => contains k r
  end.

(** [x in S] for a set of identifiers. *)
Definition mem_of (x : string) (ids : gset string) : bool := bool_decide (x ∈ ids).

(** [any(k in s for k in S)]. *)
Definition any_contained (ids : gset string) (s : string) : bool :=
  bool_decide (set_Exists (fun k => contains k s = true) ids).

(** ** Configuration constants *)

Definition SPREAD_DAMAGE_MOD : Q := 0.75%Q.

Definition SETUP_IDS : gset string :=
  {[ "swordsdance"; "nastyplot"; "calmmind"; "quiverdance"; "bulkup" ]}.
Definition PROTECT_IDS : gset string :=
  {[ "protect"; "detect"; "spikyshield"; "kingsshield"; "banefulbunker"; "silktrap" ]}.
Definition SPEED_CTRL : gset string :=
  {[ "trickroom"; "tailwind"; "icywind"; "electroweb" ]}.
Definition REDIRECT_IDS : gset string := {[ "followme"; "ragepowder" ]}.
Definition PIVOT_IDS : gset string :=
  {[ "uturn"; "voltswitch"; "flipturn"; "partingshot"; "teleport" ]}.
Definition WIDE_GUARD_IDS : gset string := {[ "wideguard" ]}.

Definition SPREAD_HINTS : gset string :=
  {[ "earthquake"; "bulldoze"; "rockslide"; "dazzlinggleam"; "heatwave";
     "snarl"; "muddywater"; "eruption"; "blizzard"; "discharge"; "hypervoice";
     "sludgewave"; "water_spout"; "makeitrain"; "glaciallance"; "originpulse";
     "precipiceblades"; "astralbarrage" ]}.

Definition AOE_FRIENDLY_FIRE : gset string :=
  {[ "earthquake"; "bulldoze"; "eruption"; "water_spout"; "surf"; "discharge";
     "sludgewave"; "explosion"; "selfdestruct" ]}.

Definition HARMFUL_ALLY_SINGLES : gset string := {[ "beatup" ]}.

(** The target strings tested by [_is_spread] and by the ally guard of
    [_move_score_vs_single]. *)
Definition SPREAD_TARGETS : gset string :=
  {[ "alladjacentfoes"; "alladjacent"; "all"; "foes" ]}.
Definition ALLY_TARGETS : gset string := {[ "adjacentally"; "ally"; "any" ]}.
Definition NO_TARGET_TARGETS : gset string :=
  {[ "self"; "ally"; "allyteam"; "allyside"; "foeside"; "allies"; "randomnormal" ]}.
Definition EXPLICIT_TARGETS : gset string :=
  {[ "normal"; "adjacentfoe"; "adjacentally"; "any" ]}.

(** ** Data model *)

(** The raw [move.target] attribute: a [str], an object (enumerator) seen
    through its [.name], its [.value] and its [str()], or [None]/absent.
    [obj_str = None] stands for an object whose [str()] raises. *)
Inductive TargetField : Type :=
| TargetStr (s : string)
| TargetObj (name value obj_str : option string)
| TargetNone.

Record Move : Type := mkMove {
  move_id : option string;        (* move.id *)
  move_type : option string;      (* move.type, by the type's name *)
  base_power : Z;                 (* move.base_power *)
  accuracy : option Q;            (* move.accuracy *)
  category : string;              (* str(move.category) *)
  target : TargetField;           (* move.target *)
  recharge : bool                 (* move.recharge *)
}.

Record Pokemon : Type := mkPokemon {
  py_id : nat;                          (* object identity, read by [is] only *)
  types : list string;                  (* names of the elemental types *)
  boosts : gmap string Z;               (* stat name -> stage *)
  status : option string;
  fainted : bool;
  current_hp_fraction : option Q;
  last_move : option Move;
  ability : option string;
  item : option string;
  moves : list Move                     (* mon.moves.values() *)
}.

(** [battle.available_moves]: a list of per-slot lists, or one flat list. *)
Inductive AvailableMoves : Type :=
| MovesPerSlot (per_slot : list (list Move))
| MovesFlat (flat : list Move).

Record Battle : Type := mkBattle {
  active_pokemon : list (option Pokemon);
  opponent_active_pokemon : list (option Pokemon);
  available_moves : AvailableMoves;
  available_moves2 : option (list Move);
  opponent_username : option string;
  opponent_team : option (list (option Pokemon));   (* the dict's values *)
  turn : option nat                                 (* None: attribute absent *)
}.

(** The mutable attributes of the player object. *)
Record Bot : Type := mkBot {
  series_memory : gmap string (gmap string bool);
  _prefer_target_slot : option nat
}.

(** [__init__]. *)
Definition init_bot : Bot :=
  {| series_memory := ∅; _prefer_target_slot := None |}.

(** ** Move classifier *)

(** [_target_str]: the target attribute as a lower-case string, the empty
    string when it is absent or cannot be rendered. *)
Definition _target_str (move : Move) : string :=
  match target move with
  | TargetStr s => lower s
  | TargetObj (Some n) _ _ => lower n
  | TargetObj None (Some v) _ => lower v
  | TargetObj None None (Some r) => lower r
  | TargetObj None None None => ""
  | TargetNone => ""
  end.

(** [(move.id or "").lower()]. *)
Definition mid_of (move : Move) : string := lower (default "" (move_id move)).

Definition _is_spread (move : Move) : bool :=
  let t := _target_str move in
  let mid := mid_of move in
  mem_of mid SPREAD_HINTS || mem_of t SPREAD_TARGETS.

Definition _requires_explicit_target (move : Move) : bool :=
  if _is_spread move then false
  else
    let t := _target_str move in
    if mem_of t NO_TARGET_TARGETS then false
    else mem_of t EXPLICIT_TARGETS.

Definition _is_physical (move : Move) : bool :=
  String.eqb (lower (category move)) "physical".

Definition _is_special (move : Move) : bool :=
  String.eqb (lower (category move)) "special".

(** ** Numbers *)

Local Open Scope Q_scope.

(** [x < y] on scores. *)
Definition Qltb (x y : Q) : bool := negb (Qle_bool y x).

(** [int(getattr(me, "boosts", {}).get(stat, 0))]. *)
Definition boost (me : option Pokemon) (stat : string) : Z :=
  match me with
  | Some p => default 0%Z (boosts p !! stat)
  | None => 0%Z
  end.

(** [getattr(me, "status", None) == s]. *)
Definition status_is (me : option Pokemon) (s : string) : bool :=
  match me with
  | Some p => match status p with Some x => String.eqb x s | None => false end
  | None => false
  end.

(** The denominator of [_stage_mod]: [2 if stage >= 0 else (2 - stage)]. *)
Definition _stage_mod_den (stage : Z) : Z :=
  if (0 <=? stage)%Z then 2%Z else (2 - stage)%Z.

(** [_stage_mod]: [(2 + max(stage, 0)) / den], Python's true division. *)
Definition _stage_mod (stage : Z) : Q :=
  inject_Z (2 + Z.max stage 0) / inject_Z (_stage_mod_den stage).

(** [mem.get(key)] read as a truth value. *)
Definition mem_flag (mem : gmap string bool) (key : string) : bool :=
  default false (mem !! key).

(** [o for o in opps if o and not o.fainted]. *)
Definition live (opps : list (option Pokemon)) : list Pokemon :=
  omap (fun o => match o with
                 | Some p => if fainted p then None else Some p
                 | None => None
                 end) opps.

(** ** Opponent memory *)

(** [getattr(battle, "opponent_username", None) or "_unknown_"]. *)
Definition opp_key (battle : Battle) : string :=
  match opponent_username battle with
  | Some u => if String.eqb u "" then "_unknown_" else u
  | None => "_unknown_"
  end.

Definition fresh_mem : gmap string bool :=
  <["protect" := false]> (<["speed_ctrl" := false]> ∅).

(** [_get_series_mem] on the dictionary [self.series_memory]: the record
    of the opponent and the dictionary after the call. *)
Definition _get_series_mem (battle : Battle) (sm : gmap string (gmap string bool))
  : gmap string bool * gmap string (gmap string bool) :=
  let opp := opp_key battle in
  match sm !! opp with
  | Some mem => (mem, sm)
  | None => (fresh_mem, <[opp := fresh_mem]> sm)
  end.

(** One round of the loop of [_update_series_mem_from_battle]. *)
Definition observe (mem : gmap string bool) (mon : option Pokemon) : gmap string bool :=
  match mon with
  | None => mem
  | Some mon =>
      match moves mon with
      | [] => mem
      | mvs =>
          let ids : gset string := list_to_set (map mid_of mvs) in
          let mem := if bool_decide (ids ∩ PROTECT_IDS ≠ ∅)
                     then <["protect" := true]> mem else mem in
          if bool_decide (ids ∩ SPEED_CTRL ≠ ∅)
          then <["speed_ctrl" := true]> mem else mem
      end
  end.

(** [mem] aliases the record stored under the opponent's key: the writes
    of the loop land in the dictionary. *)
Definition _update_series_mem_from_battle (battle : Battle)
    (sm : gmap string (gmap string bool)) : gmap string (gmap string bool) :=
  let '(mem, sm) := _get_series_mem battle sm in
  let mem := fold_left observe (default [] (opponent_team battle)) mem in
  <[opp_key battle := mem]> sm.

Definition _battle_finished_callback (battle : Battle) (bot : Bot) : Bot :=
  {| series_memory := _update_series_mem_from_battle battle (series_memory bot);
     _prefer_target_slot := _prefer_target_slot bot |}.

(** ** Methods that may raise *)

(** The exceptions of the model, all instances of Python's [Exception]:
    what an attribute access, a division, a conversion or a call into the
    battle client raises when the battle state is malformed. *)
Inductive exn : Type :=
| AttributeError | TypeError | ValueError | KeyError | IndexError
| ZeroDivisionError | OverflowError | RuntimeError.

Inductive result (A : Type) : Type :=
| Ok (a : A)
| Raise (e : exn).
Arguments Ok {A} a.
Arguments Raise {A} e.

(** A method of the player: it runs on the player's mutable attributes,
    returns or raises, and leaves the attributes as they are at that
    point (what was written before a [raise] stays written). *)
Definition M (A : Type) : Type := Bot -> result A * Bot.

Definition ret {A} (a : A) : M A := fun bot => (Ok a, bot).

Definition bind {A B} (c : M A) (k : A -> M B) : M B :=
  fun bot =>
    match c bot with
    | (Ok a, bot') => k a bot'
    | (Raise e, bot') => (Raise e, bot')
    end.

Definition lift {A} (r : result A) : M A := fun bot => (r, bot).

(** [try: body / except Exception as e: handler(e)]: what the handler
    raises is not caught. *)
Definition try_except {A} (body : M A) (handler : exn -> M A) : M A :=
  fun bot =>
    match body bot with
    | (Ok a, bot') => (Ok a, bot')
    | (Raise e, bot') => handler e bot'
    end.

Notation "x <- c ;; k" := (bind c (fun x => k))
  (at level 100, c at next level, right associativity).
Notation "c ;; k" := (bind c (fun _ => k))
  (at level 100, right associativity).

(** [self._get_series_mem(battle)] as a method. *)
Definition get_series_mem_m (battle : Battle) : M (gmap string bool) :=
  fun bot =>
    let '(mem, sm) := _get_series_mem battle (series_memory bot) in
    (Ok mem, {| series_memory := sm; _prefer_target_slot := _prefer_target_slot bot |}).

(** [self._prefer_target_slot = v]. *)
Definition set_prefer (v : option nat) : M unit :=
  fun bot => (Ok tt, {| series_memory := series_memory bot; _prefer_target_slot := v |}).

(** [self._prefer_target_slot]. *)
Definition get_prefer : M (option nat) :=
  fun bot => (Ok (_prefer_target_slot bot), bot).

(** [battle.turn], read without a default by the trace lines: the
    formatted string is built before [dbg] is entered. *)
Definition get_turn (battle : Battle) : M nat :=
  lift (match turn battle with
        | Some t => Ok t
        | None => Raise AttributeError
        end).

(** A method that leaves [series_memory] as it found it. *)
Definition keeps_memory {A} (c : M A) : Prop :=
  forall bot, series_memory (c bot).2 = series_memory bot.

(** ** Sample data for the concrete runs *)

Module Sample.

(** A small type chart: Ground does not affect Flying, Ground and Water
    are doubled against Fire, everything else is neutral. *)
Definition entry (atk def : string) : Q :=
  if String.eqb atk "Ground" && String.eqb def "Flying" then 0
  else if (String.eqb atk "Ground" || String.eqb atk "Water") && String.eqb def "Fire"
  then 2 else 1.

Definition chart (atk : string) (defender_types : list string) : Q :=
  foldr (fun d acc => entry atk d * acc) 1 defender_types.

Definition move (i ty : string) (bp : Z) (cat tgt : string) : Move :=
  {| move_id := Some i; move_type := Some ty; base_power := bp; accuracy := Some 1;
     category := cat; target := TargetStr tgt; recharge := false |}.

Definition swords_dance : Move := move "swordsdance" "Normal" 0 "Status" "self".
Definition stealth_rock : Move := move "stealthrock" "Rock" 0 "Status" "foeSide".
Definition protect : Move := move "protect" "Normal" 0 "Status" "self".
Definition tackle : Move := move "tackle" "Normal" 40 "Physical" "normal".
Definition earthquake : Move := move "earthquake" "Ground" 100 "Physical" "allAdjacent".
Definition earth_power : Move := move "earthpower" "Ground" 90 "Special" "normal".
Definition beat_up : Move := move "beatup" "Dark" 10 "Physical" "any".

Definition mon (n : nat) (tys : list string) (stages : gmap string Z)
    (known : list Move) : Pokemon :=
  {| py_id := n; types := tys; boosts := stages; status := None; fainted := false;
     current_hp_fraction := Some 1; last_move := None; ability := None;
     item := None; moves := known |}.

Definition lead : Pokemon := mon 0 ["Ground"] ∅ [].
Definition lowered : Pokemon := mon 0 ["Ground"] {[ "atk" := (-2)%Z ]} [].
Definition partner : Pokemon := mon 1 ["Normal"] ∅ [].
Definition flier : Pokemon := mon 1 ["Flying"] ∅ [].
Definition foe_a : Pokemon := mon 2 ["Fire"] ∅ [protect; tackle].
Definition foe_b : Pokemon := mon 3 ["Flying"] ∅ [tackle].

(** Orders as the list of (target, move id) they carry. *)
Definition Order : Type := list (option nat * string).
Definition create_order (m : Move) (tgt : option nat) : result Order :=
  Ok [(tgt, default "" (move_id m))].
Definition double_order (a b : Order) : Order := app a b.
Definition random_order (_ : Battle) : result Order := Ok [(None, "random")].


Definition battle (user : option string) (t : option nat) : Battle :=
  {| active_pokemon := [Some lead; Some partner];
     opponent_active_pokemon := [Some foe_a; Some foe_b];
     available_moves := MovesPerSlot [[tackle; earth_power]; [tackle; protect]];
     available_moves2 := None;
     opponent_username := user;
     opponent_team := Some [Some foe_a; Some foe_b];
     turn := t |}.

(** More sample data. *)

(** A second chart, with Rock: Ground is doubled against Fire and against
    Rock, and does not affect Flying. *)
Definition entry_rock (atk def : string) : Q :=
  if String.eqb atk "Ground" && String.eqb def "Flying" then 0
  else if String.eqb atk "Ground" && (String.eqb def "Fire" || String.eqb def "Rock")
  then 2 else 1.

Definition chart_rock (atk : string) (defender_types : list string) : Q :=
  foldr (fun d acc => entry_rock atk d * acc) 1 defender_types.

Definition mixed_case : Move :=
  {| move_id := Some "EarthQuake"; move_type := Some "Ground"; base_power := 100;
     accuracy := Some 1; category := "Physical"; target := TargetStr "allAdjacent";
     recharge := false |}.

Definition trick_room : Move := move "trickroom" "Psychic" 0 "Status" "all".
Definition foe_plain : Pokemon := mon 4 ["Normal"] ∅ [tackle].
Definition foe_fire_rock : Pokemon := mon 5 ["Fire"; "Rock"] ∅ [tackle].
Definition foe_fainted : Pokemon :=
  {| py_id := 6; types := ["Normal"]; boosts := ∅; status := None; fainted := true;
     current_hp_fraction := Some 0; last_move := None; ability := None;
     item := None; moves := [] |}.
Definition telepath : Pokemon :=
  {| py_id := 7; types := ["Psychic"]; boosts := ∅; status := None; fainted := false;
     current_hp_fraction := Some 1; last_move := None; ability := Some "Telepathy";
     item := None; moves := [] |}.
Definition levitator : Pokemon :=
  {| py_id := 8; types := ["Ghost"]; boosts := ∅; status := None; fainted := false;
     current_hp_fraction := Some 1; last_move := None; ability := Some "Levitate";
     item := None; moves := [] |}.


(** The sample battle with both opponents down. *)
Definition battle_no_foe : Battle :=
  {| active_pokemon := [Some lead; Some partner];
     opponent_active_pokemon := [Some foe_fainted; None];
     available_moves := MovesPerSlot [[tackle; earth_power]; [tackle; protect]];
     available_moves2 := None;
     opponent_username := Some "rival";
     opponent_team := Some [Some foe_fainted];
     turn := Some 9%nat |}.

(** A slot whose only move cannot affect the only live opponent. *)
Definition battle_walled : Battle :=
  {| active_pokemon := [Some lead; Some partner];
     opponent_active_pokemon := [Some foe_b];
     available_moves := MovesPerSlot [[earth_power]; [tackle]];
     available_moves2 := None;
     opponent_username := Some "rival";
     opponent_team := Some [Some foe_b];
     turn := Some 2%nat |}.

End Sample.

Section Bot.

(** [atk_type.damage_multiplier] applied to the defender's types, from the
    battle client: the product of the chart's entries for those types. *)
Variable damage_multiplier : string -> list string -> Q.

(** ** Type and stage resolver *)

Definition _eff (atk_type : option string) (defender : option Pokemon) : Q :=
  match atk_type, defender with
  | Some a, Some d => damage_multiplier a (types d)
  | _, _ => 1
  end.

Definition _stab (move : Move) (attacker : option Pokemon) : Q :=
  match move_type move, attacker with
  | Some ty, Some a => if bool_decide (ty ∈ types a) then 1.5 else 1.0
  | _, _ => 1.0
  end.

(** [move.accuracy or 1.0]. *)
Definition _acc (move : Move) : Q :=
  match accuracy move with
  | Some a => if Qeq_bool a 0 then 1.0 else a
  | None => 1.0
  end.

Definition _atk_mult (me : option Pokemon) (move : Move) : Q :=
  let mult := 1.0 in
  if _is_physical move then
    let mult := mult * _stage_mod (boost me "atk") in
    if status_is me "brn" then mult * 0.65 else mult
  else if _is_special move then
    mult * _stage_mod (boost me "spa")
  else mult.

(** ** Score adjustments *)

(** A [last_move] without an id raises inside the [try]; the handler
    falls through to [1.0]. *)
Definition _protect_risk_factor (target : option Pokemon) : Q :=
  match target with
  | Some t =>
      match last_move t with
      | Some last =>
          match move_id last with
          | Some i => if mem_of (lower i) PROTECT_IDS then 0.6 else 1.0
          | None => 1.0
          end
      | None => 1.0
      end
  | None => 1.0
  end.

Definition _move_score_vs_single (move : option Move) (me target : option Pokemon)
    (mem : gmap string bool) : Q :=
  match move with
  | None => 0.0
  | Some move =>
    let mid := mid_of move in
    let t := _target_str move in
    if mem_of t ALLY_TARGETS && (0 <? base_power move)%Z && mem_of mid HARMFUL_ALLY_SINGLES
    then 0.0
    else if (base_power move =? 0)%Z then
      if any_contained SETUP_IDS mid then
        let need :=
          if contains "swordsdance" mid || contains "bulkup" mid then (- boost me "atk")%Z
          else if contains "nastyplot" mid || contains "calmmind" mid
                  || contains "quiverdance" mid then (- boost me "spa")%Z
          else 0%Z in
        26.0 + 1.5 * inject_Z (Z.max 0 need)
      else if any_contained SPEED_CTRL mid then
        let spe_penalty := boost me "spe" in
        let par_pen := if status_is me "par" then 1%Z else 0%Z in
        32.0 + 3.0 * inject_Z (Z.max 0 (- spe_penalty + par_pen))
      else if mem_of mid REDIRECT_IDS then 28.0
      else if mem_of mid PROTECT_IDS then
        28.0 + (if mem_flag mem "protect" then 3.0 else 0.0)
      else if mem_of mid WIDE_GUARD_IDS then 27.0
      else if mem_of mid PIVOT_IDS then
        let atk_drop := boost me "atk" in
        let spa_drop := boost me "spa" in
        let drop_bonus :=
          if (atk_drop <=? -2)%Z || (spa_drop <=? -2)%Z then 3.0 else 0.0 in
        12.0 + drop_bonus
      else 4.0
    else
      let eff := _eff (move_type move) target in
      if Qeq_bool eff 0 then 0.0
      else
        let score :=
          inject_Z (base_power move) * _stab move me * eff * _acc move * _atk_mult me move in
        let score :=
          if Qle_bool 4 eff then score * 1.20
          else if Qle_bool 2 eff then score * 1.12
          else score in
        let score :=
          match target with
          | Some tg =>
              match current_hp_fraction tg with
              | Some h => if Qltb h 0.35 then score * 1.15 else score
              | None => score
              end
          | None => score
          end in
        let score :=
          if recharge move || contains "hyperbeam" mid then score * 0.7 else score in
        score * _protect_risk_factor target
  end.

(** ** Ally safety oracle *)

Definition _ally_safe_for_aoe (move_id : string) (move_type : option string)
    (ally : option Pokemon) : bool :=
  match ally with
  | None => true
  | Some ally =>
    let ability := lower (default "" (ability ally)) in
    if String.eqb ability "telepathy" then true
    else
      let mid := lower move_id in
      let types := types ally in
      let item := lower (default "" (item ally)) in
      if mem_of mid {[ "earthquake"; "bulldoze" ]} then
        bool_decide ("Flying" ∈ types) || mem_of ability {[ "levitate" ]}
        || String.eqb item "airballoon"
      else if mem_of mid {[ "explosion"; "selfdestruct" ]} then
        bool_decide ("Ghost" ∈ types)
      else if String.eqb mid "discharge" then
        bool_decide ("Ground" ∈ types) || mem_of ability {[ "voltabsorb"; "lightningrod" ]}
      else if mem_of mid {[ "surf"; "water_spout" ]} then
        mem_of ability {[ "waterabsorb"; "dryskin" ]}
      else if mem_of mid {[ "heatwave"; "eruption" ]} then
        mem_of ability {[ "flashfire" ]}
      else if String.eqb mid "sludgewave" then false
      else false
  end.

(** ** Spread scorer *)

(** The body of the loop of [_move_score_spread]: the running total after
    one live opponent [t]. *)
Definition spread_step (move : Move) (me : option Pokemon) (total : Q) (t : Pokemon) : Q :=
  let eff := _eff (move_type move) (Some t) in
  if Qeq_bool eff 0 then total
  else
    let part :=
      inject_Z (base_power move) * _stab move me * eff * _acc move * _atk_mult me move in
    let part :=
      if Qle_bool 4 eff then part * 1.12
      else if Qle_bool 2 eff then part * 1.06
      else part in
    let part :=
      match current_hp_fraction t with
      | Some h => if Qltb h 0.35 then part * 1.10 else part
      | None => part
      end in
    let part := part * _protect_risk_factor (Some t) in
    total + part.

Definition _move_score_spread (move : option Move) (me : option Pokemon)
    (opps : list (option Pokemon)) (mem : gmap string bool) (ally : option Pokemon) : Q :=
  match move with
  | None => 0.0
  | Some move =>
    let mid := mid_of move in
    let live_opps := live opps in
    let total := fold_left (spread_step move me) live_opps 0.0 in
    let total :=
      if mem_of mid AOE_FRIENDLY_FIRE && bool_decide (is_Some ally)
         && Nat.leb 1 (length live_opps)%nat
      then
        let safe := _ally_safe_for_aoe mid (move_type move) ally in
        if negb safe then total * 0.20 else total
      else total in
    total * SPREAD_DAMAGE_MOD * 1.03
  end.

(** ** Best move and target *)

(** [p is me]. *)
Definition is_obj (p : option Pokemon) (me : Pokemon) : bool :=
  match p with
  | Some q => Nat.eqb (py_id q) (py_id me)
  | None => false
  end.

(** The loop of [_slot_index] over [enumerate(l)], counting from [i]. *)
Fixpoint index_of_obj (me : Pokemon) (l : list (option Pokemon)) (i : nat) : option nat :=
  match l with
  | [] => None
  | p :: r => if is_obj p me then Some i else index_of_obj me r (S i)
  end.

Definition _slot_index (battle : Battle) (me : Pokemon) : nat :=
  default 0%nat (index_of_obj me (take 2 (active_pokemon battle)) 0).

Definition _moves_for_slot (battle : Battle) (slot : nat) : list Move :=
  match available_moves battle with
  | MovesPerSlot (m0 :: rest) => default [] ((m0 :: rest) !! slot)
  | MovesPerSlot [] =>
      match available_moves2 battle with
      | Some alt => if Nat.eqb slot 0 then [] else alt
      | None => []
      end
  | MovesFlat mv =>
      match available_moves2 battle with
      | Some alt => if Nat.eqb slot 0 then mv else alt
      | None => mv
      end
  end.

(** A candidate: (score, move, target index or 0, tag). *)
Definition Candidate : Type := Q * Move * nat * string.

Definition cand_score (c : Candidate) : Q := c.1.1.1.
Definition cand_move (c : Candidate) : Move := c.1.1.2.
Definition cand_target (c : Candidate) : nat := c.1.2.

(** The first loop of [_best_move_and_target]: spread moves. *)
Definition spread_candidates (my_moves : list Move) (me : Pokemon)
    (opps : list (option Pokemon)) (mem : gmap string bool) (ally : option Pokemon)
  : list Candidate :=
  flat_map (fun m =>
    if _is_spread m then
      let s := _move_score_spread (Some m) (Some me) opps mem ally in
      if Qltb 0 s then [(s, m, 0%nat, "spread")] else []
    else []) my_moves.

(** [tmap]: the first live opponent as target 1, the second as target 2. *)
Definition tmap (live_opps : list Pokemon) : list (Pokemon * nat) :=
  match live_opps with
  | [] => []
  | o1 :: r => (o1, 1%nat) :: match r with o2 :: _ => [(o2, 2%nat)] | [] => [] end
  end.

(** [prefer_slot and ps == prefer_slot]. *)
Definition prefers (prefer_slot : option nat) (ps : nat) : bool :=
  match prefer_slot with
  | Some n => negb (Nat.eqb n 0) && Nat.eqb ps n
  | None => false
  end.

(** The second loop of [_best_move_and_target]: single-target moves. *)
Definition single_candidates (my_moves : list Move) (me : Pokemon)
    (live_opps : list Pokemon) (mem : gmap string bool) (prefer_slot : option nat)
  : list Candidate :=
  flat_map (fun m =>
    if negb (_is_spread m) then
      flat_map (fun tp : Pokemon * nat =>
        let s := _move_score_vs_single (Some m) (Some me) (Some tp.1) mem in
        let s := if prefers prefer_slot tp.2 then s * 1.20 else s in
        if Qltb 0 s then [(s, m, tp.2, "single")] else []) (tmap live_opps)
    else []) my_moves.

(** The list [candidates] as it stands before it is sorted. *)
Definition candidates_of (my_moves : list Move) (me : Pokemon)
    (opps : list (option Pokemon)) (mem : gmap string bool) (ally : option Pokemon)
    (prefer_slot : option nat) : list Candidate :=
  spread_candidates my_moves me opps mem ally
  ++ single_candidates my_moves me (live opps) mem prefer_slot.

(** [candidates.sort(key=score, reverse=True)]: a stable sort, so that a
    candidate stays ahead of the later ones of equal score. *)
Fixpoint insert_desc (c : Candidate) (l : list Candidate) : list Candidate :=
  match l with
  | [] => [c]
  | d :: r => if Qltb (cand_score c) (cand_score d) then d :: insert_desc c r
              else c :: d :: r
  end.

Definition sort_desc (l : list Candidate) : list Candidate := foldr insert_desc [] l.

Definition _best_move_and_target (battle : Battle) (me : Pokemon)
    (opps : list (option Pokemon)) (mem : gmap string bool) (ally : option Pokemon)
    (prefer_slot : option nat) : Q * option Move * nat * string :=
  let slot := _slot_index battle me in
  let my_moves := _moves_for_slot battle slot in
  match my_moves with
  | [] => (0.0, None, 0%nat, "no-moves")
  | _ =>
    match live opps with
    | [] => (0.0, None, 0%nat, "no-opps")
    | _ =>
      match sort_desc (candidates_of my_moves me opps mem ally prefer_slot) with
      | [] => (0.0, None, 0%nat, "no-cands")
      | (s, m, ps, why) :: _ => (s, Some m, ps, why)
      end
    end
  end.

(** ** The per-turn decision *)

(** The battle client: orders, their constructors and the uniform-random
    chooser for a whole turn.  Both calls into the client may raise. *)
Variable BattleOrder : Type.
Variable create_order : Move -> option nat -> result BattleOrder.
Variable DoubleBattleOrder : BattleOrder -> BattleOrder -> BattleOrder.
Variable choose_random_doubles_move : Battle -> result BattleOrder.

(** [next((m for m in moves if p(m)), None)]. *)
Definition first_move (p : Move -> bool) (moves : list Move) : option Move :=
  head (filter (fun m => p m = true) moves).

(** The block of [choose_move] for one slot ([slot] is 0 or 1; the two
    blocks differ in that slot 0 records its target in
    [_prefer_target_slot]).  [None] stands for the [return
    self.choose_random_doubles_move(battle)] inside the block. *)
Definition choose_slot (battle : Battle) (slot : nat) (me : Pokemon)
    (ally : option Pokemon) (opp_list : list (option Pokemon))
    (mem : gmap string bool) (prefer_slot : option nat) : M (option BattleOrder) :=
  let '(_, mv, tgt, _) := _best_move_and_target battle me opp_list mem ally prefer_slot in
  match mv with
  | Some mv =>
      if _requires_explicit_target mv && (Nat.eqb tgt 1 || Nat.eqb tgt 2) then
        o <- lift (create_order mv (Some tgt)) ;;
        (if Nat.eqb slot 0 then set_prefer (Some tgt) else ret tt) ;;
        get_turn battle ;;
        ret (Some o)
      else
        o <- lift (create_order mv None) ;;
        get_turn battle ;;
        ret (Some o)
  | None =>
      let slot_moves := _moves_for_slot battle slot in
      let mv := first_move (fun m => (0 <? base_power m)%Z && negb (_is_spread m)) slot_moves in
      let mv := match mv with
                | Some m => Some m
                | None => first_move (fun m => (0 <? base_power m)%Z) slot_moves
                end in
      match mv with
      | Some mv =>
          o <- lift (create_order mv None) ;;
          get_turn battle ;;
          ret (Some o)
      | None =>
          get_turn battle ;;
          ret None
      end
  end.

(** The body of the [try] of [choose_move]. *)
Definition choose_move_body (battle : Battle) : M BattleOrder :=
  mem <- get_series_mem_m battle ;;
  set_prefer None ;;
  let me_list : list Pokemon := omap (fun p => p) (active_pokemon battle) in
  let opp_list : list (option Pokemon) :=
    filter (fun p => is_Some p) (opponent_active_pokemon battle) in
  match me_list with
  | [] => lift (choose_random_doubles_move battle)
  | me0 :: others =>
      let ally1 := head others in
      r0 <- choose_slot battle 0 me0 ally1 opp_list mem None ;;
      match r0 with
      | None => lift (choose_random_doubles_move battle)
      | Some o0 =>
          match others with
          | me1 :: _ =>
              prefer <- get_prefer ;;
              r1 <- choose_slot battle 1 me1 (Some me0) opp_list mem prefer ;;
              match r1 with
              | None => lift (choose_random_doubles_move battle)
              | Some o1 =>
                  get_turn battle ;;
                  ret (DoubleBattleOrder o0 o1)
              end
          | [] =>
              (* orders[1] is None *)
              get_turn battle ;;
              lift (choose_random_doubles_move battle)
          end
      end
  end.

Definition choose_move (battle : Battle) : M BattleOrder :=
  try_except (choose_move_body battle)
             (fun _ => lift (choose_random_doubles_move battle)).

(** ** Runs of the player *)

(** What the battle client asks of the player: a decision for a turn, or
    the end-of-battle notification. *)
Inductive event : Type :=
| Turn (battle : Battle)
| Finished (battle : Battle).

Definition step (bot : Bot) (ev : event) : Bot :=
  match ev with
  | Turn battle => (choose_move battle bot).2
  | Finished battle => _battle_finished_callback battle bot
  end.

Definition run (evs : list event) (bot : Bot) : Bot := fold_left step evs bot.


(** ** Vocabulary of the properties *)

(** The stage cap of the data model: stages range over [-6, +6]. *)
Definition STAGE_CAP : Z := 6.

(** The setup-move score as the specification words it: 26 plus 1.5 per
    stage still needed to reach the cap, nothing at or above the cap. *)
Definition spec_setup_score (stage : Z) : Q :=
  26 + 1.5 * inject_Z (Z.max 0 (STAGE_CAP - stage)).

(** The target specifications the specification lists for spread moves:
    all-adjacent-foes, all-adjacent, all, foe-side. *)
Definition SPEC_SPREAD_TARGETS : gset string :=
  {[ "alladjacentfoes"; "alladjacent"; "all"; "foeside" ]}.

(** The per-target contribution of a spread move, as the specification
    lists its factors. *)
Definition spread_part (move : Move) (me : option Pokemon) (t : Pokemon) : Q :=
  let eff := _eff (move_type move) (Some t) in
  inject_Z (base_power move) * _stab move me * eff * _acc move * _atk_mult me move
  * (if Qle_bool 4 eff then 1.12 else if Qle_bool 2 eff then 1.06 else 1)
  * (match current_hp_fraction t with
     | Some h => if Qltb h 0.35 then 1.10 else 1
     | None => 1
     end)
  * _protect_risk_factor (Some t).

Definition immune (move : Move) (t : Pokemon) : bool :=
  Qeq_bool (_eff (move_type move) (Some t)) 0.

Definition Qsum (l : list Q) : Q := foldr Qplus 0 l.

(** The sum of the contributions over the live, non-immune opponents. *)
Definition spread_sum (move : Move) (me : option Pokemon) (opps : list (option Pokemon)) : Q :=
  Qsum (map (spread_part move me)
            (filter (fun t => immune move t = false) (live opps))).

(** The condition under which [_move_score_spread] applies the
    friendly-fire factor. *)
Definition friendly_fire_applies (move : Move) (opps : list (option Pokemon))
    (ally : option Pokemon) : bool :=
  mem_of (mid_of move) AOE_FRIENDLY_FIRE && bool_decide (is_Some ally)
  && Nat.leb 1 (length (live opps))
  && negb (_ally_safe_for_aoe (mid_of move) (move_type move) ally).

(** The range of the doubles under rounding to nearest: a quotient of
    magnitude [2^1024 - 2^970] or more rounds past the largest double, and
    one of magnitude [2^-1075] or less rounds to zero. *)
Definition DBL_OVERFLOW : Q := inject_Z (2 ^ 1024 - 2 ^ 970).
Definition DBL_TO_ZERO : Q := 1 # (2 ^ 1075).

(** Python's [a / b] on integers: [ZeroDivisionError] for a zero divisor,
    [OverflowError] ("integer division result too large for a float") when
    the quotient rounds past the largest double, [0.0] when it rounds to
    zero, and the quotient otherwise (its rounding inside the range is
    not modelled, scores being rationals). *)
Definition truediv (a b : Z) : result Q :=
  if (b =? 0)%Z then Raise ZeroDivisionError
  else
    let q := inject_Z a / inject_Z b in
    if Qle_bool DBL_OVERFLOW (Qabs q) then Raise OverflowError
    else if Qle_bool (Qabs q) DBL_TO_ZERO then Ok 0
    else Ok q.

(** The opponent's identity is absent or empty. *)
Definition unknown_opponent (battle : Battle) : Prop :=
  opponent_username battle = None \/ opponent_username battle = Some "".

(** The opponent's roster shows a protection move. *)
Definition shows_protect (battle : Battle) : Prop :=
  exists team mon m,
    opponent_team battle = Some team /\ Some mon ∈ team /\ m ∈ moves mon
    /\ mid_of m ∈ PROTECT_IDS.

(** The combatant [t] as it is once its last move is [l]. *)
Definition with_last_move (t : Pokemon) (l : option Move) : Pokemon :=
  {| py_id := py_id t; types := types t; boosts := boosts t; status := status t;
     fainted := fainted t; current_hp_fraction := current_hp_fraction t;
     last_move := l; ability := ability t; item := item t; moves := moves t |}.

(** The guard at the head of [_move_score_vs_single], which keeps a
    damaging single off the ally. *)
Definition ally_guard (move : Move) : bool :=
  mem_of (_target_str move) ALLY_TARGETS && (0 <? base_power move)%Z
  && mem_of (mid_of move) HARMFUL_ALLY_SINGLES.

(** The move identifiers for which [_ally_safe_for_aoe] has a rule that
    can answer [True]. *)
Definition ORACLE_COVERED : gset string :=
  {[ "earthquake"; "bulldoze"; "explosion"; "selfdestruct"; "discharge";
     "surf"; "water_spout"; "heatwave"; "eruption" ]}.

(** A list of candidates in which nobody scores above someone placed
    before. *)
Fixpoint descending (l : list Candidate) : Prop :=
  match l with
  | [] => True
  | c :: r => Forall (fun d => cand_score d <= cand_score c) r /\ descending r
  end.

(** [active_pokemon[i] is me]. *)
Definition is_obj_at (battle : Battle) (i : nat) (me : Pokemon) : bool :=
  match active_pokemon battle !! i with
  | Some p => is_obj p me
  | None => false
  end.

(** Every move the battle offers, in any slot. *)
Definition all_available (battle : Battle) : list Move :=
  match available_moves battle with
  | MovesPerSlot per_slot => concat per_slot
  | MovesFlat flat => flat
  end ++ default [] (available_moves2 battle).

(** The score [_best_move_and_target] gives a single-target move against
    the target of index [ps], the focus factor included. *)
Definition focused_score (m : Move) (me tgt : Pokemon) (mem : gmap string bool)
    (prefer_slot : option nat) (ps : nat) : Q :=
  let s := _move_score_vs_single (Some m) (Some me) (Some tgt) mem in
  if prefers prefer_slot ps then s * 1.20 else s.

(** A roster member has a known move whose identifier is in [ids]. *)
Definition mon_shows (ids : gset string) (mon : option Pokemon) : bool :=
  match mon with
  | Some p => existsb (fun m => mem_of (mid_of m) ids) (moves p)
  | None => false
  end.

(** Some member of the opponent's roster has such a move. *)
Definition roster_shows (ids : gset string) (battle : Battle) : bool :=
  existsb (mon_shows ids) (default [] (opponent_team battle)).

(** An order for the move [m] with target [t] that [choose_move] may
    place in a slot: a move of that slot, with no target or with the
    index, 1 or 2, of a live opponent when the move needs a target. *)
Definition order_fits (battle : Battle) (slot : nat) (m : Move) (t : option nat) : Prop :=
  m ∈ _moves_for_slot battle slot
  /\ (t = None
      \/ exists ps,
           t = Some ps /\ _requires_explicit_target m = true
           /\ (ps = 1%nat \/ ps = 2%nat)
           /\ is_Some (live (filter (fun p => is_Some p) (opponent_active_pokemon battle))
                       !! (ps - 1)%nat)).

(** The move and the target index of a candidate. *)
Definition cand_key (c : Candidate) : Move * nat := (cand_move c, cand_target c).

(** The opponent an event is about. *)
Definition event_key (ev : event) : string :=
  match ev with
  | Turn battle => opp_key battle
  | Finished battle => opp_key battle
  end.

(** A record with its two flags and nothing else. *)
Definition two_flags (mem : gmap string bool) : Prop :=
  forall k, is_Some (mem !! k) <-> k = "protect" \/ k = "speed_ctrl".

(** * Proofs *)

(** ** Tactics and arithmetic on scores *)

Ltac reduce_bool t :=
  let v := eval vm_compute in t in
  lazymatch v with
  | true => replace t with true by (vm_compute; reflexivity)
  | false => replace t with false by (vm_compute; reflexivity)
  end.

(** Evaluate the tests on identifiers that have become closed terms. *)
Ltac eval_tests :=
  repeat match goal with
  | |- context [contains ?a ?b] => reduce_bool (contains a b)
  | |- context [any_contained ?a ?b] => reduce_bool (any_contained a b)
  | |- context [mem_of ?a ?b] => reduce_bool (mem_of a b)
  end.

Lemma Qltb_lt x y : Qltb x y = true <-> x < y.
Proof.
  unfold Qltb. rewrite negb_true_iff. split.
  - intros H. apply Qnot_le_lt. intros Hle. apply Qle_bool_iff in Hle. congruence.
  - intros H. destruct (Qle_bool y x) eqn:E; [|reflexivity].
    apply Qle_bool_iff in E. exfalso. apply (Qlt_not_le _ _ H E).
Qed.

Lemma mem_of_true x ids : mem_of x ids = true <-> x ∈ ids.
Proof. unfold mem_of. apply bool_decide_eq_true. Qed.

Lemma mem_of_false x ids : mem_of x ids = false <-> x ∉ ids.
Proof. unfold mem_of. apply bool_decide_eq_false. Qed.

(** ** Stage multiplier *)

Lemma _stage_mod_den_pos stage : (2 <= _stage_mod_den stage)%Z.
Proof. unfold _stage_mod_den. destruct (Z.leb_spec 0 stage); lia. Qed.

Lemma truediv_positive (n d : Z) :
  (0 < n)%Z -> (0 < d)%Z ->
  (((2 ^ 1024 - 2 ^ 970) * d <= n)%Z -> truediv n d = Raise OverflowError)
  /\ ((n < (2 ^ 1024 - 2 ^ 970) * d)%Z -> (n * 2 ^ 1075 <= d)%Z ->
      truediv n d = Ok 0)
  /\ ((n < (2 ^ 1024 - 2 ^ 970) * d)%Z -> (d < n * 2 ^ 1075)%Z ->
      truediv n d = Ok (inject_Z n / inject_Z d)).
Proof.
  intros Hn Hd. unfold truediv.
  destruct (Z.eqb_spec d 0) as [E|_]; [lia|]. cbv zeta.
  assert (Hq : inject_Z n / inject_Z d == n # Z.to_pos d).
  { rewrite (Qmake_Qdiv n (Z.to_pos d)), Z2Pos.id by lia. reflexivity. }
  assert (Habs : Qabs (inject_Z n / inject_Z d) == n # Z.to_pos d).
  { rewrite Hq. apply Qabs_pos. unfold Qle. simpl. lia. }
  assert (Hov : Qle_bool DBL_OVERFLOW (Qabs (inject_Z n / inject_Z d)) = true
                <-> ((2 ^ 1024 - 2 ^ 970) * d <= n)%Z).
  { rewrite Qle_bool_iff, Habs. unfold Qle, DBL_OVERFLOW. simpl Qnum. simpl Qden.
    rewrite Z2Pos.id by lia. lia. }
  assert (Hun : Qle_bool (Qabs (inject_Z n / inject_Z d)) DBL_TO_ZERO = true
                <-> (n * 2 ^ 1075 <= d)%Z).
  { rewrite Qle_bool_iff, Habs. unfold Qle, DBL_TO_ZERO. simpl Qnum. simpl Qden.
    rewrite Z2Pos.id by lia. rewrite Pos2Z.inj_pow. lia. }
  destruct (Qle_bool DBL_OVERFLOW _) eqn:Eo;
    destruct (Qle_bool _ DBL_TO_ZERO) eqn:Eu;
    repeat split; intros; try reflexivity; exfalso;
    repeat match goal with
    | H : true = true <-> _ |- _ => pose proof (proj1 H eq_refl); clear H
    | H : false = true <-> _ |- _ =>
        assert (~ _) by (intros X; apply H in X; discriminate X); clear H
    end; lia.
Qed.

(** C10, as the code has it. At every integer stage the denominator is 2
    (stage at or above 0) or [2 - stage], at least 3 (stage below 0), so
    the division never divides by zero and the exact quotient is above
    zero.  The division as Python computes it returns that quotient, a
    positive number, exactly for the stages strictly between [2 - 2^1076]
    and [2^1025 - 2^971 - 2] (the game's -6..+6 among them); at or above
    the upper bound it raises [OverflowError], at or below the lower bound
    it returns 0.0. *)
Theorem stage_mod_positive_within_doubles (stage : Z) :
  ((0 <= stage /\ _stage_mod_den stage = 2)%Z
   \/ (stage < 0 /\ _stage_mod_den stage = 2 - stage /\ 3 <= _stage_mod_den stage)%Z)
  /\ 0 < _stage_mod stage
  /\ ((2 - 2 ^ 1076 < stage < 2 ^ 1025 - 2 ^ 971 - 2)%Z ->
      truediv (2 + Z.max stage 0) (_stage_mod_den stage) = Ok (_stage_mod stage))
  /\ ((2 ^ 1025 - 2 ^ 971 - 2 <= stage)%Z ->
      truediv (2 + Z.max stage 0) (_stage_mod_den stage) = Raise OverflowError)
  /\ ((stage <= 2 - 2 ^ 1076)%Z ->
      truediv (2 + Z.max stage 0) (_stage_mod_den stage) = Ok 0).
Proof.
  pose proof (_stage_mod_den_pos stage) as Hden.
  assert (Hnum : (0 < 2 + Z.max stage 0)%Z) by lia.
  destruct (truediv_positive (2 + Z.max stage 0) (_stage_mod_den stage) Hnum)
    as [Hov [Hzero Hok]]; [lia|].
  assert (P1 : (2 ^ 1025 = 2 * 2 ^ 1024)%Z) by reflexivity.
  assert (P2 : (2 ^ 971 = 2 * 2 ^ 970)%Z) by reflexivity.
  assert (P3 : (2 ^ 1076 = 2 * 2 ^ 1075)%Z) by reflexivity.
  assert (P4 : (2 ^ 1024 = 2 ^ 54 * 2 ^ 970)%Z) by reflexivity.
  assert (P5 : (0 < 2 ^ 970)%Z) by reflexivity.
  assert (P6 : (0 < 2 ^ 1075)%Z) by reflexivity.
  assert (P7 : (2 ^ 54 = 18014398509481984)%Z) by reflexivity.
  split; [|split; [|split; [|split]]].
  - unfold _stage_mod_den in *. destruct (Z.leb_spec 0 stage); [left|right]; lia.
  - unfold _stage_mod. apply Qlt_shift_div_l.
    + change 0 with (inject_Z 0). rewrite <- Zlt_Qlt. lia.
    + rewrite Qmult_0_l. change 0 with (inject_Z 0). rewrite <- Zlt_Qlt. lia.
  - intros Hrange. unfold _stage_mod. apply Hok;
      unfold _stage_mod_den; destruct (Z.leb_spec 0 stage); nia.
  - intros Hbig. apply Hov.
    unfold _stage_mod_den; destruct (Z.leb_spec 0 stage); nia.
  - intros Hsmall. apply Hzero;
      unfold _stage_mod_den; destruct (Z.leb_spec 0 stage); nia.
Qed.

(** ** Single-target scorer *)

(** C7. A damaging move whose normalised target is adjacent-ally, ally or
    any and whose identifier is in the unsafe-on-ally set scores 0 against
    every target, whatever the acting combatant and the memory. *)
Theorem harmful_ally_single_scores_zero (move : Move) (me target : option Pokemon)
    (mem : gmap string bool) :
  (0 < base_power move)%Z ->
  _target_str move ∈ ALLY_TARGETS ->
  mid_of move ∈ HARMFUL_ALLY_SINGLES ->
  _move_score_vs_single (Some move) me target mem == 0.
Proof.
  intros Hbp Ht Hid. unfold _move_score_vs_single.
  apply mem_of_true in Ht, Hid. rewrite Ht, Hid.
  apply Z.ltb_lt in Hbp. rewrite Hbp. simpl. lra.
Qed.

(** C1, as the code has it. A setup move of base power 0 scores 26 plus
    1.5 per stage the relevant stat lies below 0 (the attack stage for
    swordsdance and bulkup, the special-attack stage for nastyplot,
    calmmind and quiverdance), and 26 when that stage is 0 or above. *)
Theorem setup_move_score (move : Move) (me target : option Pokemon)
    (mem : gmap string bool) :
  base_power move = 0%Z ->
  mid_of move ∈ SETUP_IDS ->
  let stage :=
    if mem_of (mid_of move) {[ "swordsdance"; "bulkup" ]}
    then boost me "atk" else boost me "spa" in
  _move_score_vs_single (Some move) me target mem
  == 26 + 1.5 * inject_Z (Z.max 0 (- stage)).
Proof.
  intros Hbp Hid. unfold _move_score_vs_single. rewrite Hbp.
  rewrite andb_false_r. simpl andb. cbv iota.
  change (0 =? 0)%Z with true. cbv iota.
  generalize (boost me "atk") (boost me "spa"). intros a s.
  unfold SETUP_IDS in Hid.
  repeat (apply elem_of_union in Hid as [Hid|Hid]);
    apply elem_of_singleton in Hid; rewrite Hid; eval_tests; cbn [orb andb negb];
    match goal with
    | |- context [inject_Z ?z] => generalize (inject_Z z); intros q; lra
    end.
Qed.

(** The scorer on a damaging move whose type cannot affect the target:
    0 from the ally guard or 0 from the immunity test. *)
Lemma single_score_immune (move : Move) (me target : option Pokemon)
    (mem : gmap string bool) :
  (0 < base_power move)%Z ->
  _eff (move_type move) target == 0 ->
  _move_score_vs_single (Some move) me target mem == 0.
Proof.
  intros Hbp Heff. unfold _move_score_vs_single.
  destruct (mem_of (_target_str move) ALLY_TARGETS && (0 <? base_power move)%Z
            && mem_of (mid_of move) HARMFUL_ALLY_SINGLES); [lra|].
  destruct (Z.eqb_spec (base_power move) 0) as [E|_]; [lia|].
  apply Qeq_bool_iff in Heff. rewrite Heff. lra.
Qed.

(** ** Move classifier *)

(** C2, as the code has it. A move is classified as spread exactly when
    its lower-cased identifier is in the known-spread set or its
    normalised target is one of alladjacentfoes, alladjacent, all, foes;
    a move aimed at foeside whose identifier is not in the known-spread
    set is not classified as spread. *)
Theorem is_spread_iff (move : Move) :
  (_is_spread move = true
   <-> mid_of move ∈ SPREAD_HINTS \/ _target_str move ∈ SPREAD_TARGETS)
  /\ (_target_str move = "foeside" -> mid_of move ∉ SPREAD_HINTS ->
      _is_spread move = false).
Proof.
  unfold _is_spread. split.
  - rewrite orb_true_iff, !mem_of_true. reflexivity.
  - intros Ht Hid. apply mem_of_false in Hid. rewrite Hid, Ht.
    vm_compute. reflexivity.
Qed.

(** ** Spread scorer *)

Lemma spread_step_eq (move : Move) (me : option Pokemon) (total : Q) (t : Pokemon) :
  spread_step move me total t
  == if immune move t then total else total + spread_part move me t.
Proof.
  unfold spread_step, spread_part, immune.
  destruct (Qeq_bool (_eff (move_type move) (Some t)) 0); [reflexivity|].
  destruct (Qle_bool 4 _); [|destruct (Qle_bool 2 _)];
    (destruct (current_hp_fraction t) as [h|]; [destruct (Qltb h 0.35)|]); ring.
Qed.

Lemma fold_spread_step (move : Move) (me : option Pokemon) (l : list Pokemon) (acc : Q) :
  fold_left (spread_step move me) l acc
  == acc + Qsum (map (spread_part move me) (filter (fun t => immune move t = false) l)).
Proof.
  revert acc. induction l as [|t l IH]; intros acc; simpl.
  - unfold Qsum. simpl. ring.
  - rewrite IH, spread_step_eq, filter_cons.
    destruct (immune move t) eqn:E.
    + rewrite decide_False by congruence. reflexivity.
    + rewrite decide_True by congruence. simpl. unfold Qsum at 2. simpl.
      fold (Qsum (map (spread_part move me) (filter (fun t => immune move t = false) l))).
      ring.
Qed.

(** C4. When the friendly-fire factor does not apply, the score of a
    spread move is 0.75 * 1.03 times the sum, over the live opponents the
    move's type can hit, of the per-target contribution. *)
Theorem spread_score_formula (move : Move) (me : option Pokemon)
    (opps : list (option Pokemon)) (mem : gmap string bool) (ally : option Pokemon) :
  friendly_fire_applies move opps ally = false ->
  _move_score_spread (Some move) me opps mem ally
  == 0.75 * 1.03 * spread_sum move me opps.
Proof.
  intros Hff. unfold _move_score_spread, spread_sum, SPREAD_DAMAGE_MOD.
  unfold friendly_fire_applies in Hff.
  set (total := fold_left (spread_step move me) (live opps) 0.0).
  assert (Htotal : total
    == Qsum (map (spread_part move me)
                 (filter (fun t => immune move t = false) (live opps)))).
  { unfold total. rewrite fold_spread_step. ring. }
  destruct (mem_of (mid_of move) AOE_FRIENDLY_FIRE && bool_decide (is_Some ally)
            && Nat.leb 1 (length (live opps))).
  - simpl in Hff. rewrite Hff. rewrite Htotal. ring.
  - rewrite Htotal. ring.
Qed.

(** C5. For a spread move of the friendly-fire set, with an ally present
    that the oracle does not deem safe and at least one live opponent
    hit, the score is 0.20 times the score of the same call without the
    penalty (the call with no ally). *)
Theorem friendly_fire_penalty_factor (move : Move) (me : option Pokemon)
    (opps : list (option Pokemon)) (mem : gmap string bool) (ally : Pokemon) :
  mid_of move ∈ AOE_FRIENDLY_FIRE ->
  (exists t, t ∈ live opps /\ immune move t = false) ->
  _ally_safe_for_aoe (mid_of move) (move_type move) (Some ally) = false ->
  _move_score_spread (Some move) me opps mem (Some ally)
  == 0.20 * _move_score_spread (Some move) me opps mem None.
Proof.
  intros Hid [t [Ht _]] Hsafe. unfold _move_score_spread.
  apply mem_of_true in Hid. rewrite Hid, Hsafe.
  rewrite bool_decide_eq_true_2 by eauto.
  rewrite (bool_decide_eq_false_2 (is_Some None)) by (intros [? ?]; discriminate).
  destruct (live opps) as [|o l]; [inversion Ht|].
  simpl length. cbn [Nat.leb andb negb]. ring.
Qed.

(** ** Candidates *)

Lemma spread_candidates_spec (my_moves : list Move) (me : Pokemon)
    (opps : list (option Pokemon)) (mem : gmap string bool) (ally : option Pokemon)
    (c : Candidate) :
  c ∈ spread_candidates my_moves me opps mem ally ->
  0 < cand_score c /\ cand_target c = 0%nat.
Proof.
  unfold spread_candidates. rewrite list_elem_of_In, in_flat_map.
  intros [m [_ Hc]]. destruct (_is_spread m); [|inversion Hc].
  destruct (Qltb 0 _) eqn:E; [|inversion Hc].
  destruct Hc as [<-|[]]. split; [|reflexivity]. apply Qltb_lt. exact E.
Qed.

Lemma single_candidates_spec (my_moves : list Move) (me : Pokemon)
    (live_opps : list Pokemon) (mem : gmap string bool) (prefer_slot : option nat)
    (c : Candidate) :
  c ∈ single_candidates my_moves me live_opps mem prefer_slot ->
  0 < cand_score c
  /\ exists tgt,
       (tgt, cand_target c) ∈ tmap live_opps
       /\ cand_score c
          == _move_score_vs_single (Some (cand_move c)) (Some me) (Some tgt) mem
             * (if prefers prefer_slot (cand_target c) then 1.20 else 1).
Proof.
  unfold single_candidates. rewrite list_elem_of_In, in_flat_map.
  intros [m [_ Hc]]. destruct (_is_spread m); [inversion Hc|]. simpl in Hc.
  apply in_flat_map in Hc as [[tgt ps] [Htp Hc]]. simpl in Hc.
  destruct (Qltb 0 _) eqn:E; [|inversion Hc].
  destruct Hc as [<-|[]]. split; [apply Qltb_lt; exact E|].
  exists tgt. split; [apply list_elem_of_In; exact Htp|].
  unfold cand_score, cand_move, cand_target. simpl.
  destruct (prefers prefer_slot ps); ring.
Qed.

(** The target indices of [tmap] name one opponent each. *)
Lemma tmap_functional (live_opps : list Pokemon) (t1 t2 : Pokemon) (ps : nat) :
  (t1, ps) ∈ tmap live_opps -> (t2, ps) ∈ tmap live_opps -> t1 = t2.
Proof.
  destruct live_opps as [|o1 [|o2 r]]; simpl;
    rewrite ?elem_of_cons, ?elem_of_nil; intros H1 H2;
    repeat match goal with
    | H : _ \/ _ |- _ => destruct H
    | H : False |- _ => destruct H
    | H : (_, _) = (_, _) |- _ => inversion H; clear H; subst
    end; try reflexivity; try discriminate.
Qed.

Lemma tmap_index (live_opps : list Pokemon) (t : Pokemon) (ps : nat) :
  (t, ps) ∈ tmap live_opps -> ps = 1%nat \/ ps = 2%nat.
Proof.
  destruct live_opps as [|o1 [|o2 r]]; simpl;
    rewrite ?elem_of_cons, ?elem_of_nil; intros H;
    repeat match goal with
    | H : _ \/ _ |- _ => destruct H
    | H : False |- _ => destruct H
    | H : (_, _) = (_, _) |- _ => inversion H; clear H; subst
    end; auto.
Qed.

(** Sorting rearranges the candidates and nothing else. *)
Lemma insert_desc_perm (c : Candidate) (l : list Candidate) : insert_desc c l ≡ₚ c :: l.
Proof.
  induction l as [|d r IH]; simpl; [reflexivity|].
  destruct (Qltb (cand_score c) (cand_score d)); [|reflexivity].
  rewrite IH. apply perm_swap.
Qed.

Lemma sort_desc_perm (l : list Candidate) : sort_desc l ≡ₚ l.
Proof.
  unfold sort_desc. induction l as [|c l IH]; simpl; [reflexivity|].
  rewrite insert_desc_perm, IH. reflexivity.
Qed.

(** The move [_best_move_and_target] returns is one of the candidates. *)
Lemma best_move_is_candidate (battle : Battle) (me : Pokemon)
    (opps : list (option Pokemon)) (mem : gmap string bool) (ally : option Pokemon)
    (prefer_slot : option nat) (s : Q) (m : Move) (ps : nat) (why : string) :
  _best_move_and_target battle me opps mem ally prefer_slot = (s, Some m, ps, why) ->
  (s, m, ps, why)
  ∈ candidates_of (_moves_for_slot battle (_slot_index battle me)) me opps mem ally
      prefer_slot.
Proof.
  unfold _best_move_and_target.
  destruct (_moves_for_slot battle (_slot_index battle me)) as [|m0 ms];
    [discriminate|].
  destruct (live opps) as [|o os] eqn:Elive; [discriminate|].
  destruct (sort_desc _) as [|[[[s' m'] ps'] why'] r] eqn:Esort; [discriminate|].
  intros H. inversion H. subst.
  rewrite <- sort_desc_perm, Esort. apply list_elem_of_here.
Qed.

(** C6. A damaging move scores 0 against a target its type cannot affect;
    the candidate list never holds that move with that target's index;
    and every candidate of the list has a score above 0. *)
Theorem immune_pair_never_candidate (move : Move) (target : Pokemon)
    (mem : gmap string bool) :
  (0 < base_power move)%Z ->
  _eff (move_type move) (Some target) == 0 ->
  (forall me, _move_score_vs_single (Some move) me (Some target) mem == 0)
  /\ (forall my_moves me opps ally prefer_slot ps c,
        (target, ps) ∈ tmap (live opps) ->
        c ∈ candidates_of my_moves me opps mem ally prefer_slot ->
        ~ (cand_move c = move /\ cand_target c = ps))
  /\ (forall my_moves me opps ally prefer_slot c,
        c ∈ candidates_of my_moves me opps mem ally prefer_slot ->
        0 < cand_score c).
Proof.
  intros Hbp Heff. split; [|split].
  - intros me. apply single_score_immune; assumption.
  - intros my_moves me opps ally prefer_slot ps c Hps Hc [Hm Ht].
    unfold candidates_of in Hc. apply elem_of_app in Hc as [Hc|Hc].
    + apply spread_candidates_spec in Hc as [_ H0].
      apply tmap_index in Hps. lia.
    + apply single_candidates_spec in Hc as [Hpos [tgt [Htgt Hs]]].
      rewrite Ht in Htgt. rewrite (tmap_functional _ _ _ _ Htgt Hps) in Hs.
      rewrite Hm in Hs.
      rewrite (single_score_immune move (Some me) (Some target) mem Hbp Heff) in Hs.
      rewrite Hs in Hpos. lra.
  - intros my_moves me opps ally prefer_slot c Hc.
    unfold candidates_of in Hc. apply elem_of_app in Hc as [Hc|Hc].
    + apply spread_candidates_spec in Hc as [H _]. exact H.
    + apply single_candidates_spec in Hc as [H _]. exact H.
Qed.

(** ** The per-turn decision and exceptions *)


(** ** Opponent memory *)

Lemma keeps_ret {A} (a : A) : keeps_memory (ret a).
Proof. intros bot. reflexivity. Qed.

Lemma keeps_lift {A} (r : result A) : keeps_memory (lift r).
Proof. intros bot. reflexivity. Qed.

Lemma keeps_set_prefer v : keeps_memory (set_prefer v).
Proof. intros bot. reflexivity. Qed.

Lemma keeps_get_prefer : keeps_memory get_prefer.
Proof. intros bot. reflexivity. Qed.

Lemma keeps_get_turn battle : keeps_memory (get_turn battle).
Proof. intros bot. reflexivity. Qed.

Lemma keeps_bind {A B} (c : M A) (k : A -> M B) :
  keeps_memory c -> (forall a, keeps_memory (k a)) -> keeps_memory (bind c k).
Proof.
  intros Hc Hk bot. unfold bind. specialize (Hc bot).
  destruct (c bot) as [[a|e] bot']; simpl in *; [|exact Hc].
  rewrite Hk. exact Hc.
Qed.

Create HintDb keeps.
#[local] Hint Resolve keeps_ret keeps_lift keeps_set_prefer keeps_get_prefer
  keeps_get_turn : keeps.

Ltac keeps_step :=
  match goal with
  | |- keeps_memory (bind _ _) => apply keeps_bind; [|intros ?]
  | |- keeps_memory (match ?x with _ => _ end) => destruct x
  | |- keeps_memory (if ?x then _ else _) => destruct x
  | |- keeps_memory _ => solve [auto with keeps]
  end.

Lemma keeps_choose_slot battle slot me ally opp_list mem prefer_slot :
  keeps_memory (choose_slot battle slot me ally opp_list mem prefer_slot).
Proof.
  unfold choose_slot.
  destruct (_best_move_and_target battle me opp_list mem ally prefer_slot)
    as [[[s mv] tgt] why].
  repeat keeps_step.
Qed.

(** A turn touches the memory through [_get_series_mem] only. *)
Lemma choose_move_memory (battle : Battle) (bot : Bot) :
  series_memory (choose_move battle bot).2
  = (_get_series_mem battle (series_memory bot)).2.
Proof.
  unfold choose_move, try_except, choose_move_body.
  unfold bind at 1. unfold get_series_mem_m.
  destruct (_get_series_mem battle (series_memory bot)) as [mem sm]. simpl.
  match goal with
  | |- context [bind ?c ?k ?b] =>
      assert (Hk : keeps_memory (bind c k))
  end.
  { pose proof keeps_choose_slot. repeat keeps_step. }
  match goal with
  | |- context [bind ?c ?k ?b] =>
      specialize (Hk b); destruct (bind c k b) as [[o|e] bot']
  end; simpl in *; exact Hk.
Qed.


Lemma observe_mono (mem : gmap string bool) (mon : option Pokemon) (flag : string) :
  mem !! flag = Some true -> observe mem mon !! flag = Some true.
Proof.
  intros H. unfold observe. destruct mon as [mon|]; [|exact H].
  destruct (moves mon) as [|m ms]; [exact H|].
  repeat case_bool_decide;
    repeat (rewrite lookup_insert; case_decide; [reflexivity|]); exact H.
Qed.

Lemma fold_observe_mono (team : list (option Pokemon)) (mem : gmap string bool)
    (flag : string) :
  mem !! flag = Some true -> fold_left observe team mem !! flag = Some true.
Proof.
  revert mem. induction team as [|mon team IH]; intros mem H; simpl; [exact H|].
  apply IH, observe_mono, H.
Qed.




Lemma unknown_opp_key (battle : Battle) :
  unknown_opponent battle -> opp_key battle = "_unknown_".
Proof. unfold opp_key. intros [H|H]; rewrite H; reflexivity. Qed.

Lemma observe_protect (mem : gmap string bool) (mon : Pokemon) (m : Move) :
  m ∈ moves mon -> mid_of m ∈ PROTECT_IDS ->
  observe mem (Some mon) !! "protect" = Some true.
Proof.
  intros Hm Hid. unfold observe.
  destruct (moves mon) as [|m0 ms] eqn:E; [inversion Hm|].
  rewrite (bool_decide_eq_true_2 (_ ∩ PROTECT_IDS ≠ ∅)).
  - case_bool_decide.
    + rewrite lookup_insert_ne by discriminate. apply lookup_insert_eq.
    + apply lookup_insert_eq.
  - intros Hempty.
    assert (Hin : mid_of m ∈ (list_to_set (map mid_of (m0 :: ms)) : gset string)
                             ∩ PROTECT_IDS).
    { apply elem_of_intersection. split; [|exact Hid].
      apply elem_of_list_to_set, list_elem_of_In, in_map, list_elem_of_In, Hm. }
    rewrite Hempty in Hin. apply not_elem_of_empty in Hin. exact Hin.
Qed.

Lemma fold_observe_protect (team : list (option Pokemon)) (mem : gmap string bool)
    (mon : Pokemon) (m : Move) :
  Some mon ∈ team -> m ∈ moves mon -> mid_of m ∈ PROTECT_IDS ->
  fold_left observe team mem !! "protect" = Some true.
Proof.
  intros Hmon Hm Hid. revert mem.
  induction team as [|o team IH]; intros mem; [inversion Hmon|].
  simpl. apply elem_of_cons in Hmon as [<-|Hmon].
  - apply fold_observe_mono. eapply observe_protect; eassumption.
  - apply IH, Hmon.
Qed.

Lemma protect_move_score (move : Move) (me target : option Pokemon)
    (mem : gmap string bool) :
  base_power move = 0%Z -> mid_of move ∈ PROTECT_IDS ->
  _move_score_vs_single (Some move) me target mem
  == 28 + (if mem_flag mem "protect" then 3 else 0).
Proof.
  intros Hbp Hid. unfold _move_score_vs_single. rewrite Hbp.
  rewrite andb_false_r. simpl andb. cbv iota.
  change (0 =? 0)%Z with true. cbv iota.
  generalize (mem_flag mem "protect"). intros f.
  unfold PROTECT_IDS in Hid.
  repeat (apply elem_of_union in Hid as [Hid|Hid]);
    apply elem_of_singleton in Hid; rewrite Hid; eval_tests; cbv iota;
    destruct f; lra.
Qed.

(** C9. Battles whose opponent identity is absent or empty use the one
    key "_unknown_": they read the same record and write the same record,
    and a protection move seen on one unknown opponent's roster raises the
    score of the player's protection moves from 28 to 31 in a battle
    against any other unknown opponent. *)
Theorem unknown_opponents_share_profile (b1 b2 : Battle)
    (sm : gmap string (gmap string bool)) :
  unknown_opponent b1 -> unknown_opponent b2 ->
  (opp_key b1 = "_unknown_" /\ opp_key b2 = "_unknown_")
  /\ _get_series_mem b1 sm = _get_series_mem b2 sm
  /\ _update_series_mem_from_battle b1 sm !! "_unknown_"
     = Some (_get_series_mem b2 (_update_series_mem_from_battle b1 sm)).1
  /\ (shows_protect b1 ->
      forall move me target,
        base_power move = 0%Z -> mid_of move ∈ PROTECT_IDS ->
        _move_score_vs_single (Some move) me target fresh_mem == 28
        /\ _move_score_vs_single (Some move) me target
             (_get_series_mem b2 (_update_series_mem_from_battle b1 sm)).1 == 31).
Proof.
  intros H1 H2. apply unknown_opp_key in H1 as K1. apply unknown_opp_key in H2 as K2.
  assert (Hwritten : _update_series_mem_from_battle b1 sm !! "_unknown_"
    = Some (fold_left observe (default [] (opponent_team b1)) (_get_series_mem b1 sm).1)).
  { unfold _update_series_mem_from_battle.
    destruct (_get_series_mem b1 sm) as [mem sm']. rewrite K1. apply lookup_insert_eq. }
  assert (Hread : (_get_series_mem b2 (_update_series_mem_from_battle b1 sm)).1
    = fold_left observe (default [] (opponent_team b1)) (_get_series_mem b1 sm).1).
  { unfold _get_series_mem at 1. rewrite K2, Hwritten. reflexivity. }
  split; [split; assumption|]. split; [|split].
  - unfold _get_series_mem. rewrite K1, K2. reflexivity.
  - rewrite Hread. exact Hwritten.
  - intros [team [mon [m [Hteam [Hmon [Hm Hid]]]]]] move me target Hbp Hmid.
    split.
    + rewrite protect_move_score by assumption. vm_compute. reflexivity.
    + rewrite protect_move_score by assumption. rewrite Hread.
      unfold mem_flag. rewrite Hteam. simpl default at 2.
      rewrite (fold_observe_protect team _ mon m Hmon Hm Hid). simpl. lra.
Qed.


(** * Further properties of the code *)

(** ** Normalisation and the classifier *)

Lemma lower_ascii_idem (c : ascii) : lower_ascii (lower_ascii c) = lower_ascii c.
Proof. destruct c as [[] [] [] [] [] [] [] []]; reflexivity. Qed.

Lemma lower_idem (s : string) : lower (lower s) = lower s.
Proof.
  induction s as [|c s IH]; simpl; [reflexivity|].
  rewrite lower_ascii_idem, IH. reflexivity.
Qed.

(** X1. What the classifier reads is already in lower case, so that a
    move classifies the same whatever the case of its identifier and of
    its target string. *)
Theorem classifier_ignores_case (move : Move) (i s : string) :
  move_id move = Some i -> target move = TargetStr s ->
  let lowered :=
    {| move_id := Some (lower i); move_type := move_type move;
       base_power := base_power move; accuracy := accuracy move;
       category := category move; target := TargetStr (lower s);
       recharge := recharge move |} in
  mid_of lowered = mid_of move
  /\ _target_str lowered = _target_str move
  /\ _is_spread lowered = _is_spread move
  /\ _requires_explicit_target lowered = _requires_explicit_target move.
Proof.
  intros Hi Ht lowered.
  assert (Hmid : mid_of lowered = mid_of move).
  { unfold mid_of, lowered. simpl. rewrite Hi. simpl. apply lower_idem. }
  assert (Htgt : _target_str lowered = _target_str move).
  { unfold _target_str, lowered. simpl. rewrite Ht. apply lower_idem. }
  assert (Hsp : _is_spread lowered = _is_spread move).
  { unfold _is_spread. rewrite Hmid, Htgt. reflexivity. }
  repeat split; try assumption.
  unfold _requires_explicit_target. rewrite Hsp, Htgt. reflexivity.
Qed.

(** X2. A move needs an explicit target exactly when it is not a spread
    move and its normalised target is normal, adjacentfoe, adjacentally or
    any; a spread move never needs one, whatever its target says. *)
Theorem requires_explicit_target_iff (move : Move) :
  (_requires_explicit_target move = true
   <-> _is_spread move = false /\ _target_str move ∈ EXPLICIT_TARGETS)
  /\ (_is_spread move = true -> _requires_explicit_target move = false).
Proof.
  unfold _requires_explicit_target. split.
  - destruct (_is_spread move).
    + split; [discriminate|]. intros [H _]. discriminate H.
    + split.
      * destruct (mem_of (_target_str move) NO_TARGET_TARGETS); [discriminate|].
        intros H. split; [reflexivity|]. apply mem_of_true, H.
      * intros [_ H]. unfold EXPLICIT_TARGETS in H.
        repeat (apply elem_of_union in H as [H|H]);
          apply elem_of_singleton in H; rewrite H; vm_compute; reflexivity.
  - intros H. rewrite H. reflexivity.
Qed.

(** ** Stage multiplier *)

Lemma _stage_mod_Qmake (stage : Z) :
  _stage_mod stage == (2 + Z.max stage 0) # Z.to_pos (_stage_mod_den stage).
Proof.
  unfold _stage_mod. pose proof (_stage_mod_den_pos stage) as H.
  rewrite (Qmake_Qdiv (2 + Z.max stage 0) (Z.to_pos (_stage_mod_den stage))).
  rewrite Z2Pos.id by lia. reflexivity.
Qed.

Lemma _stage_mod_pos (stage : Z) : 0 < _stage_mod stage.
Proof.
  rewrite _stage_mod_Qmake. unfold Qlt. simpl. lia.
Qed.


(** ** The factors of a score *)

Lemma _stab_pos (move : Move) (me : option Pokemon) : 0 < _stab move me.
Proof.
  unfold _stab. destruct (move_type move), me; try case_bool_decide; lra.
Qed.

Lemma _acc_pos (move : Move) :
  (forall a, accuracy move = Some a -> 0 <= a) -> 0 < _acc move.
Proof.
  intros H. unfold _acc. destruct (accuracy move) as [a|]; [|lra].
  specialize (H a eq_refl). destruct (Qeq_bool a 0) eqn:E; [lra|].
  apply Qeq_bool_neq in E. apply Qle_lteq in H as [H|H]; [exact H|].
  exfalso. apply E. symmetry. exact H.
Qed.

Lemma _atk_mult_pos (me : option Pokemon) (move : Move) : 0 < _atk_mult me move.
Proof.
  unfold _atk_mult.
  pose proof (_stage_mod_pos (boost me "atk")).
  pose proof (_stage_mod_pos (boost me "spa")).
  destruct (_is_physical move); [destruct (status_is me "brn")|
                                 destruct (_is_special move)]; lra.
Qed.

Lemma _protect_risk_factor_pos (target : option Pokemon) :
  0 < _protect_risk_factor target.
Proof.
  unfold _protect_risk_factor.
  destruct target as [t|]; [|lra]. destruct (last_move t) as [l|]; [|lra].
  destruct (move_id l); [|lra]. destruct (mem_of _ _); lra.
Qed.

Lemma inject_Z_max_nonneg (z : Z) : 0 <= inject_Z (Z.max 0 z).
Proof. change 0 with (inject_Z 0). rewrite <- Zle_Qle. lia. Qed.

Lemma status_score_ge_4 (move : Move) (me target : option Pokemon)
    (mem : gmap string bool) :
  base_power move = 0%Z -> 4 <= _move_score_vs_single (Some move) me target mem.
Proof.
  intros Hbp. unfold _move_score_vs_single. rewrite Hbp.
  rewrite andb_false_r. simpl andb. cbv iota.
  change (0 =? 0)%Z with true. cbv iota. cbv zeta.
  repeat match goal with
  | |- context [inject_Z (Z.max 0 ?z)] =>
      let H := fresh "H" in
      pose proof (inject_Z_max_nonneg z) as H;
      generalize dependent (inject_Z (Z.max 0 z)); intros
  end.
  repeat match goal with
  | |- context [if ?b then _ else _] => destruct b
  end; lra.
Qed.



(** X6. Against a target whose last move was a protection move, a move
    with base power scores 0.6 times what it scores against the same
    target with no last move. *)
Theorem protect_risk_scales_damaging_score (move : Move) (me : option Pokemon)
    (t : Pokemon) (last : Move) (i : string) (mem : gmap string bool) :
  base_power move <> 0%Z ->
  move_id last = Some i -> lower i ∈ PROTECT_IDS ->
  _move_score_vs_single (Some move) me (Some (with_last_move t (Some last))) mem
  == 0.6 * _move_score_vs_single (Some move) me (Some (with_last_move t None)) mem.
Proof.
  intros Hbp Hi Hp. unfold _move_score_vs_single.
  destruct (mem_of (_target_str move) ALLY_TARGETS && (0 <? base_power move)%Z
            && mem_of (mid_of move) HARMFUL_ALLY_SINGLES); [lra|].
  destruct (Z.eqb_spec (base_power move) 0) as [E|_]; [contradiction|].
  unfold _eff, _protect_risk_factor. simpl. rewrite Hi.
  apply mem_of_true in Hp. rewrite Hp.
  repeat match goal with
  | |- context [if ?b then _ else _] => destruct b
  | |- context [match ?x with Some _ => _ | None => _ end] => destruct x
  end; ring.
Qed.

(** X7. Two targets that differ in their types only: where the move is
    four times effective on one and neutral on the other, the first score
    is 4.8 times the second (4 from the chart, 1.20 from the tier); where
    it is twice effective, 2.24 times (2 and 1.12). *)
Theorem effectiveness_tiers (move : Move) (me : option Pokemon)
    (t1 t : Pokemon) (mem : gmap string bool) :
  base_power move <> 0%Z ->
  ally_guard move = false ->
  current_hp_fraction t = current_hp_fraction t1 ->
  last_move t = last_move t1 ->
  _eff (move_type move) (Some t1) == 1 ->
  (_eff (move_type move) (Some t) == 4 ->
   _move_score_vs_single (Some move) me (Some t) mem
   == 4.8 * _move_score_vs_single (Some move) me (Some t1) mem)
  /\ (_eff (move_type move) (Some t) == 2 ->
      _move_score_vs_single (Some move) me (Some t) mem
      == 2.24 * _move_score_vs_single (Some move) me (Some t1) mem).
Proof.
  intros Hbp Hguard Hhp Hlast H1.
  assert (Hprf : _protect_risk_factor (Some t) = _protect_risk_factor (Some t1)).
  { unfold _protect_risk_factor. rewrite Hlast. reflexivity. }
  unfold _move_score_vs_single. unfold ally_guard in Hguard. rewrite Hguard.
  destruct (Z.eqb_spec (base_power move) 0) as [E|_]; [contradiction|].
  rewrite Hprf, Hhp. cbv zeta.
  generalize dependent (_eff (move_type move) (Some t1)). intros e1 H1.
  generalize (_eff (move_type move) (Some t)). intros e.
  assert (T1 : Qeq_bool e1 0 = false /\ Qle_bool 4 e1 = false /\ Qle_bool 2 e1 = false).
  { repeat split.
    - destruct (Qeq_bool e1 0) eqn:E; [apply Qeq_bool_iff in E; lra|reflexivity].
    - destruct (Qle_bool 4 e1) eqn:E; [apply Qle_bool_iff in E; lra|reflexivity].
    - destruct (Qle_bool 2 e1) eqn:E; [apply Qle_bool_iff in E; lra|reflexivity]. }
  destruct T1 as [-> [-> ->]].
  split; intros He.
  - assert (T : Qeq_bool e 0 = false /\ Qle_bool 4 e = true).
    { split.
      - destruct (Qeq_bool e 0) eqn:E; [apply Qeq_bool_iff in E; lra|reflexivity].
      - apply Qle_bool_iff. lra. }
    destruct T as [-> ->].
    repeat match goal with
    | |- context [if ?b then _ else _] => destruct b
    | |- context [match ?x with Some _ => _ | None => _ end] => destruct x
    end; rewrite He, H1; ring.
  - assert (T : Qeq_bool e 0 = false /\ Qle_bool 4 e = false /\ Qle_bool 2 e = true).
    { repeat split.
      - destruct (Qeq_bool e 0) eqn:E; [apply Qeq_bool_iff in E; lra|reflexivity].
      - destruct (Qle_bool 4 e) eqn:E; [apply Qle_bool_iff in E; lra|reflexivity].
      - apply Qle_bool_iff. lra. }
    destruct T as [-> [-> ->]].
    repeat match goal with
    | |- context [if ?b then _ else _] => destruct b
    | |- context [match ?x with Some _ => _ | None => _ end] => destruct x
    end; rewrite He, H1; ring.
Qed.

(** ** Spread scorer *)

Lemma spread_part_nonneg (move : Move) (me : option Pokemon) (t : Pokemon) :
  (0 <= base_power move)%Z ->
  (forall a, accuracy move = Some a -> 0 <= a) ->
  0 <= _eff (move_type move) (Some t) ->
  0 <= spread_part move me t.
Proof.
  intros Hbp Hacc Heff. unfold spread_part. cbv zeta.
  assert (Hb : 0 <= inject_Z (base_power move)).
  { change 0 with (inject_Z 0). rewrite <- Zle_Qle. exact Hbp. }
  pose proof (_stab_pos move me). pose proof (_acc_pos move Hacc).
  pose proof (_atk_mult_pos me move).
  pose proof (_protect_risk_factor_pos (Some t)).
  repeat match goal with
  | |- context [if ?b then _ else _] => destruct b
  | |- context [match ?x with Some _ => _ | None => _ end] => destruct x
  end;
  repeat apply Qmult_le_0_compat; try assumption; lra.
Qed.

Lemma spread_total_nonneg (move : Move) (me : option Pokemon) (l : list Pokemon) :
  (0 <= base_power move)%Z ->
  (forall a, accuracy move = Some a -> 0 <= a) ->
  (forall t, t ∈ l -> 0 <= _eff (move_type move) (Some t)) ->
  0 <= fold_left (spread_step move me) l 0.0.
Proof.
  intros Hbp Hacc Heff. rewrite fold_spread_step.
  assert (H : 0 <= Qsum (map (spread_part move me)
                          (filter (fun t => immune move t = false) l))).
  { induction l as [|t l IH]; [unfold Qsum; simpl; lra|].
    rewrite filter_cons.
    assert (IH' : 0 <= Qsum (map (spread_part move me)
                               (filter (fun t => immune move t = false) l))).
    { apply IH. intros u Hu. apply Heff. apply list_elem_of_further, Hu. }
    destruct (decide (immune move t = false)); [|exact IH'].
    simpl. unfold Qsum in *. simpl.
    pose proof (spread_part_nonneg move me t Hbp Hacc
                  (Heff t (list_elem_of_here _ _))).
    lra. }
  lra.
Qed.

(** X8. With a type chart without negative entries, the score of a spread
    move is never negative, an ally can only lower it, and an ally makes
    no difference at all for a move outside the friendly-fire set. *)
Theorem spread_score_bounds (move : Move) (me : option Pokemon)
    (opps : list (option Pokemon)) (mem : gmap string bool) (ally : option Pokemon) :
  (0 <= base_power move)%Z ->
  (forall a, accuracy move = Some a -> 0 <= a) ->
  (forall t, t ∈ live opps -> 0 <= _eff (move_type move) (Some t)) ->
  0 <= _move_score_spread (Some move) me opps mem ally
  /\ _move_score_spread (Some move) me opps mem ally
     <= _move_score_spread (Some move) me opps mem None
  /\ (mid_of move ∉ AOE_FRIENDLY_FIRE ->
      _move_score_spread (Some move) me opps mem ally
      = _move_score_spread (Some move) me opps mem None).
Proof.
  intros Hbp Hacc Heff.
  pose proof (spread_total_nonneg move me (live opps) Hbp Hacc Heff) as Htot.
  unfold _move_score_spread, SPREAD_DAMAGE_MOD. cbv zeta.
  rewrite (bool_decide_eq_false_2 (is_Some None)) by (intros [? ?]; discriminate).
  rewrite andb_false_r. simpl andb. cbv iota.
  generalize dependent (fold_left (spread_step move me) (live opps) 0.0).
  intros total Htot.
  split; [|split].
  - repeat match goal with
    | |- context [if ?b then _ else _] => destruct b
    end; lra.
  - repeat match goal with
    | |- context [if ?b then _ else _] => destruct b
    end; lra.
  - intros Hid. apply mem_of_false in Hid. rewrite Hid. reflexivity.
Qed.

Lemma live_nil (opps : list (option Pokemon)) :
  Forall (fun o => match o with Some p => fainted p = true | None => True end) opps ->
  live opps = [].
Proof.
  induction 1 as [|o opps Ho _ IH]; [reflexivity|].
  change (live (o :: opps))
    with (match (match o with
                 | Some p => if fainted p then None else Some p
                 | None => None
                 end) with
          | Some p => p :: live opps
          | None => live opps
          end).
  rewrite IH. destruct o as [p|]; [rewrite Ho|]; reflexivity.
Qed.

(** X9. When every opponent is absent or has fainted, a spread move
    scores 0 and [_best_move_and_target] answers "no-opps" with no move,
    unless the slot has no moves at all. *)
Theorem no_live_opponent (battle : Battle) (me : Pokemon) (move : Move)
    (opps : list (option Pokemon)) (mem : gmap string bool) (ally : option Pokemon)
    (prefer_slot : option nat) :
  Forall (fun o => match o with Some p => fainted p = true | None => True end) opps ->
  _move_score_spread (Some move) (Some me) opps mem ally == 0
  /\ (_moves_for_slot battle (_slot_index battle me) <> [] ->
      _best_move_and_target battle me opps mem ally prefer_slot
      = (0.0, None, 0%nat, "no-opps")).
Proof.
  intros H. apply live_nil in H. split.
  - unfold _move_score_spread. rewrite H. simpl. rewrite andb_false_r. simpl. lra.
  - intros Hm. unfold _best_move_and_target. rewrite H.
    destruct (_moves_for_slot battle (_slot_index battle me)); [contradiction|].
    reflexivity.
Qed.

(** ** Ally safety oracle *)

(** X10. An ally with the ability telepathy, in any letter case, is safe
    from every move.  Any other ally is safe only from a move the oracle
    has a rule for, and then only through a type, ability or item of its
    own: an ally with no types, no ability and no item is never safe. *)
Theorem ally_safe_only_by_protection (mid : string) (mt : option string)
    (ally : Pokemon) :
  (lower (default "" (ability ally)) = "telepathy" ->
   _ally_safe_for_aoe mid mt (Some ally) = true)
  /\ (lower (default "" (ability ally)) <> "telepathy" ->
      _ally_safe_for_aoe mid mt (Some ally) = true ->
      lower mid ∈ ORACLE_COVERED
      /\ (types ally <> [] \/ ability ally <> None \/ item ally <> None)).
Proof.
  unfold _ally_safe_for_aoe. split.
  - intros ->. reflexivity.
  - intros Hne. destruct (String.eqb_spec (lower (default "" (ability ally))) "telepathy")
      as [E|_]; [contradiction|].
    assert (Hab : forall ids, mem_of (lower (default "" (ability ally))) ids = true ->
                  "" ∉ ids -> ability ally <> None).
    { intros ids H Hn Hnone. rewrite Hnone in H. simpl in H.
      apply mem_of_true in H. contradiction. }
    assert (Hty : forall ty, bool_decide (ty ∈ types ally) = true -> types ally <> []).
    { intros ty H Hnil. rewrite Hnil in H. apply bool_decide_eq_true in H.
      inversion H. }
    assert (Hit : forall s, String.eqb (lower (default "" (item ally))) s = true ->
                  s <> "" -> item ally <> None).
    { intros s H Hs Hnone. rewrite Hnone in H.
      apply String.eqb_eq in H. simpl in H. congruence. }
    destruct (mem_of (lower mid) {[ "earthquake"; "bulldoze" ]}) eqn:E1.
    { intros H. apply mem_of_true in E1. split.
      - unfold ORACLE_COVERED. clear -E1. set_unfold. tauto.
      - apply orb_true_iff in H as [H|H]; [apply orb_true_iff in H as [H|H]|].
        + left. eapply Hty, H.
        + right. left. eapply Hab; [exact H|]. vm_compute. discriminate.
        + right. right. eapply Hit; [exact H|discriminate]. }
    destruct (mem_of (lower mid) {[ "explosion"; "selfdestruct" ]}) eqn:E2.
    { intros H. apply mem_of_true in E2. split.
      - unfold ORACLE_COVERED. clear -E2. set_unfold. tauto.
      - left. eapply Hty, H. }
    destruct (String.eqb_spec (lower mid) "discharge") as [E3|_].
    { intros H. split.
      - rewrite E3. vm_compute. reflexivity.
      - apply orb_true_iff in H as [H|H].
        + left. eapply Hty, H.
        + right. left. eapply Hab; [exact H|]. vm_compute. discriminate. }
    destruct (mem_of (lower mid) {[ "surf"; "water_spout" ]}) eqn:E4.
    { intros H. apply mem_of_true in E4. split.
      - unfold ORACLE_COVERED. clear -E4. set_unfold. tauto.
      - right. left. eapply Hab; [exact H|]. vm_compute. discriminate. }
    destruct (mem_of (lower mid) {[ "heatwave"; "eruption" ]}) eqn:E5.
    { intros H. apply mem_of_true in E5. split.
      - unfold ORACLE_COVERED. clear -E5. set_unfold. tauto.
      - right. left. eapply Hab; [exact H|]. vm_compute. discriminate. }
    destruct (String.eqb (lower mid) "sludgewave"); discriminate.
Qed.

(** ** Slots *)

(** X11. The slot index is 0 or 1; it is 1 exactly when the second
    active combatant is [me] and the first is not, and 0 in every other
    case, also when [me] is not among the first two. *)
Theorem slot_index_range (battle : Battle) (me : Pokemon) :
  (_slot_index battle me = 0%nat \/ _slot_index battle me = 1%nat)
  /\ (_slot_index battle me = 1%nat
      <-> is_obj_at battle 0 me = false /\ is_obj_at battle 1 me = true).
Proof.
  unfold _slot_index, is_obj_at.
  destruct (active_pokemon battle) as [|p0 [|p1 r]]; simpl.
  - split; [auto|]. split; [discriminate|]. intros [_ H]. discriminate H.
  - destruct (is_obj p0 me); simpl; (split; [auto|]);
      (split; [discriminate|]); intros [H1 H2]; discriminate.
  - destruct (is_obj p0 me), (is_obj p1 me); simpl; (split; [auto|]);
      split; try discriminate; auto; intros [H1 H2]; discriminate.
Qed.

(** X12. The moves of a slot are moves the battle offers; with per-slot
    lists a slot beyond the last one has no moves, and a single flat list
    without a second list serves every slot. *)
Theorem moves_for_slot_available (battle : Battle) (slot : nat) :
  (forall m, m ∈ _moves_for_slot battle slot -> m ∈ all_available battle)
  /\ (forall per_slot, available_moves battle = MovesPerSlot per_slot ->
      per_slot <> [] -> (length per_slot <= slot)%nat ->
      _moves_for_slot battle slot = [])
  /\ (forall flat, available_moves battle = MovesFlat flat ->
      available_moves2 battle = None -> _moves_for_slot battle slot = flat).
Proof.
  unfold _moves_for_slot, all_available. split; [|split].
  - intros m. destruct (available_moves battle) as [[|m0 rest]|flat].
    + destruct (available_moves2 battle) as [alt|]; [|intros H; inversion H].
      destruct (Nat.eqb slot 0); [intros H; inversion H|]. simpl. auto.
    + destruct ((m0 :: rest) !! slot) as [l|] eqn:E; simpl; [|intros H; inversion H].
      intros H. apply elem_of_app. left.
      apply list_elem_of_In, (proj2 (in_concat (m0 :: rest) m)). exists l.
      split; apply list_elem_of_In; [eapply list_elem_of_lookup_2, E|exact H].
    + destruct (available_moves2 battle) as [alt|]; simpl.
      * destruct (Nat.eqb slot 0); intros H; apply elem_of_app; auto.
      * intros H; apply elem_of_app; auto.
  - intros per_slot -> Hne Hlen. destruct per_slot as [|m0 rest]; [contradiction|].
    rewrite lookup_ge_None_2 by exact Hlen. reflexivity.
  - intros flat -> ->. reflexivity.
Qed.

(** ** Sorting the candidates *)

Lemma insert_desc_descending (c : Candidate) (l : list Candidate) :
  descending l -> descending (insert_desc c l).
Proof.
  induction l as [|d r IH]; simpl; [auto|].
  intros [Hd Hr]. destruct (Qltb (cand_score c) (cand_score d)) eqn:E.
  - simpl. split; [|apply IH, Hr].
    rewrite insert_desc_perm. constructor; [|exact Hd].
    apply Qltb_lt in E. lra.
  - simpl. assert (Hle : cand_score d <= cand_score c).
    { destruct (Qlt_le_dec (cand_score c) (cand_score d)) as [H|H]; [|exact H].
      apply Qltb_lt in H. congruence. }
    split; [|split; assumption].
    constructor; [exact Hle|].
    eapply Forall_impl; [exact Hd|]. simpl. intros x Hx. lra.
Qed.

Lemma sort_desc_first_max (l : list Candidate) (best : Candidate) (rest : list Candidate) :
  sort_desc l = best :: rest ->
  exists l1 l2 : list Candidate,
    l = (l1 ++ best :: l2)%list
    /\ Forall (fun c => cand_score c < cand_score best) l1
    /\ Forall (fun c => cand_score c <= cand_score best) l2.
Proof.
  revert best rest. induction l as [|c r IH]; intros best rest; [discriminate|].
  change (sort_desc (c :: r)) with (insert_desc c (sort_desc r)).
  destruct (sort_desc r) as [|d r'] eqn:E.
  - intros H. inversion H. subst.
    assert (r = []) as ->.
    { apply Permutation_nil_r. rewrite <- E. symmetry. apply sort_desc_perm. }
    exists [], []. repeat split; constructor.
  - destruct (IH d r' eq_refl) as [l1 [l2 [Hr [H1 H2]]]].
    simpl. destruct (Qltb (cand_score c) (cand_score d)) eqn:Ecd; intros H;
      inversion H; subst best.
    + exists (c :: l1), l2. split; [rewrite Hr; reflexivity|].
      split; [|exact H2]. constructor; [apply Qltb_lt, Ecd|exact H1].
    + assert (Hle : cand_score d <= cand_score c).
      { destruct (Qlt_le_dec (cand_score c) (cand_score d)) as [Hlt|Hle]; [|exact Hle].
        apply Qltb_lt in Hlt. congruence. }
      exists [], r. split; [reflexivity|]. split; [constructor|].
      rewrite Hr. apply Forall_app. split; [|constructor].
      * eapply Forall_impl; [exact H1|]. simpl. intros x Hx. lra.
      * exact Hle.
      * eapply Forall_impl; [exact H2|]. simpl. intros x Hx. lra.
Qed.

(** X13. Sorting keeps the candidates (it permutes them), puts them in
    descending order of score, and is stable at the top: the head of the
    sorted list is the first candidate of the original list that reaches
    the highest score. *)
Theorem sort_desc_correct (l : list Candidate) :
  sort_desc l ≡ₚ l
  /\ descending (sort_desc l)
  /\ (forall best rest, sort_desc l = best :: rest ->
      exists l1 l2 : list Candidate,
        l = (l1 ++ best :: l2)%list
        /\ Forall (fun c => cand_score c < cand_score best) l1
        /\ Forall (fun c => cand_score c <= cand_score best) l2).
Proof.
  split; [apply sort_desc_perm|]. split; [|apply sort_desc_first_max].
  unfold sort_desc. induction l as [|c l IH]; simpl; [exact I|].
  apply insert_desc_descending, IH.
Qed.

(** ** The candidates and the best of them *)

Lemma elem_of_spread_candidates (my_moves : list Move) (me : Pokemon)
    (opps : list (option Pokemon)) (mem : gmap string bool) (ally : option Pokemon)
    (c : Candidate) :
  c ∈ spread_candidates my_moves me opps mem ally
  <-> exists m,
        m ∈ my_moves /\ _is_spread m = true
        /\ Qltb 0 (_move_score_spread (Some m) (Some me) opps mem ally) = true
        /\ c = (_move_score_spread (Some m) (Some me) opps mem ally, m, 0%nat, "spread").
Proof.
  unfold spread_candidates. rewrite list_elem_of_In, in_flat_map. split.
  - intros [m [Hm Hc]]. exists m. apply list_elem_of_In in Hm.
    destruct (_is_spread m) eqn:Hsp; [|inversion Hc].
    destruct (Qltb 0 _) eqn:E; [|inversion Hc].
    destruct Hc as [<-|[]]. auto.
  - intros [m [Hm [Hs [Hq ->]]]]. exists m. apply list_elem_of_In in Hm.
    split; [exact Hm|]. rewrite Hs, Hq. left. reflexivity.
Qed.

Lemma elem_of_single_candidates (my_moves : list Move) (me : Pokemon)
    (live_opps : list Pokemon) (mem : gmap string bool) (prefer_slot : option nat)
    (c : Candidate) :
  c ∈ single_candidates my_moves me live_opps mem prefer_slot
  <-> exists m tgt ps,
        m ∈ my_moves /\ _is_spread m = false /\ (tgt, ps) ∈ tmap live_opps
        /\ Qltb 0 (focused_score m me tgt mem prefer_slot ps) = true
        /\ c = (focused_score m me tgt mem prefer_slot ps, m, ps, "single").
Proof.
  unfold single_candidates, focused_score. rewrite list_elem_of_In, in_flat_map. split.
  - intros [m [Hm Hc]]. apply list_elem_of_In in Hm.
    destruct (_is_spread m) eqn:Hsp; [inversion Hc|]. cbn [negb] in Hc.
    apply in_flat_map in Hc as [[tgt ps] [Htp Hc]].
    cbv beta zeta in Hc. cbn [fst snd] in Hc.
    apply list_elem_of_In in Htp.
    destruct (Qltb 0 _) eqn:E; [|inversion Hc].
    destruct Hc as [<-|[]]. exists m, tgt, ps. cbv zeta. repeat split; auto.
  - intros [m [tgt [ps [Hm [Hs [Htp [Hq ->]]]]]]]. exists m.
    apply list_elem_of_In in Hm. split; [exact Hm|]. rewrite Hs. cbn [negb].
    apply in_flat_map. exists (tgt, ps). apply list_elem_of_In in Htp.
    split; [exact Htp|]. cbv beta zeta in *. cbn [fst snd]. rewrite Hq.
    left. reflexivity.
Qed.

(** A target index of [tmap] is 1 or 2 and names the live opponent at
    that place. *)
Lemma tmap_lookup (live_opps : list Pokemon) (t : Pokemon) (ps : nat) :
  (t, ps) ∈ tmap live_opps <->
  (ps = 1%nat \/ ps = 2%nat) /\ live_opps !! (ps - 1)%nat = Some t.
Proof.
  destruct live_opps as [|o1 [|o2 r]]; simpl;
    rewrite ?elem_of_cons, ?elem_of_nil; split.
  - intros [].
  - intros [[-> | ->] H]; simpl in H; discriminate H.
  - intros [H|[]]. inversion H. auto.
  - intros [[-> | ->] H]; simpl in H; [left; congruence|discriminate H].
  - intros [H|[H|[]]]; inversion H; auto.
  - intros [[-> | ->] H]; simpl in H; [left|right; left]; congruence.
Qed.

Lemma best_move_max (battle : Battle) (me : Pokemon)
    (opps : list (option Pokemon)) (mem : gmap string bool) (ally : option Pokemon)
    (prefer_slot : option nat) (s : Q) (m : Move) (ps : nat) (why : string)
    (c : Candidate) :
  _best_move_and_target battle me opps mem ally prefer_slot = (s, Some m, ps, why) ->
  c ∈ candidates_of (_moves_for_slot battle (_slot_index battle me)) me opps mem ally
        prefer_slot ->
  cand_score c <= s.
Proof.
  unfold _best_move_and_target.
  destruct (_moves_for_slot battle (_slot_index battle me)) as [|m0 ms];
    [discriminate|].
  destruct (live opps) as [|o os] eqn:Elive; [discriminate|].
  destruct (sort_desc _) as [|[[[s' m'] ps'] why'] r] eqn:Esort; [discriminate|].
  intros H Hc. inversion H. subst.
  apply sort_desc_first_max in Esort as [l1 [l2 [Hl [H1 H2]]]].
  rewrite Hl in Hc. apply elem_of_app in Hc as [Hc|Hc].
  - rewrite Forall_forall in H1. apply Qlt_le_weak, (H1 c Hc).
  - apply elem_of_cons in Hc as [->|Hc]; [apply Qle_refl|].
    rewrite Forall_forall in H2. apply (H2 c Hc).
Qed.


Lemma spread_score_zero_power (move : Move) (me : option Pokemon)
    (opps : list (option Pokemon)) (mem : gmap string bool) (ally : option Pokemon) :
  base_power move = 0%Z -> _move_score_spread (Some move) me opps mem ally == 0.
Proof.
  intros Hbp. unfold _move_score_spread. cbv zeta.
  assert (Htot : fold_left (spread_step move me) (live opps) 0.0 == 0).
  { rewrite fold_spread_step.
    induction (live opps) as [|t l IH]; [unfold Qsum; simpl; lra|].
    rewrite filter_cons. destruct (decide (immune move t = false)); [|exact IH].
    simpl map. unfold Qsum in *. simpl foldr.
    assert (Hpart : spread_part move me t == 0).
    { unfold spread_part. rewrite Hbp. cbv zeta. ring. }
    rewrite Hpart. lra. }
  repeat match goal with
  | |- context [if ?b then _ else _] => destruct b
  end; rewrite Htot; unfold SPREAD_DAMAGE_MOD; lra.
Qed.

(** X4. A move with base power 0 never scores below 4 in the
    single-target scorer.  When it is not classified as spread it is
    therefore a candidate, with a score of at least 4, against each of the
    first two live opponents.  When it is classified as spread it goes to
    the spread scorer instead, scores 0 there and is no candidate at
    all. *)
Theorem status_move_score_at_least_4 (move : Move) (me target : option Pokemon)
    (mem : gmap string bool) :
  base_power move = 0%Z ->
  4 <= _move_score_vs_single (Some move) me target mem
  /\ (forall my_moves me' opps ally prefer_slot tgt ps,
        move ∈ my_moves -> _is_spread move = false ->
        (tgt, ps) ∈ tmap (live opps) ->
        exists c,
          c ∈ candidates_of my_moves me' opps mem ally prefer_slot
          /\ cand_move c = move /\ cand_target c = ps /\ 4 <= cand_score c)
  /\ (forall my_moves me' opps ally prefer_slot,
        _is_spread move = true ->
        _move_score_spread (Some move) (Some me') opps mem ally == 0
        /\ forall c,
             c ∈ candidates_of my_moves me' opps mem ally prefer_slot ->
             cand_move c <> move).
Proof.
  intros Hbp. split; [apply status_score_ge_4, Hbp|]. split.
  - intros my_moves me' opps ally prefer_slot tgt ps Hm Hs Ht.
    pose proof (status_score_ge_4 move (Some me') (Some tgt) mem Hbp) as H4.
    assert (Hf : 4 <= focused_score move me' tgt mem prefer_slot ps).
    { unfold focused_score. cbv zeta. destruct (prefers prefer_slot ps); lra. }
    exists (focused_score move me' tgt mem prefer_slot ps, move, ps, "single").
    split; [|auto].
    unfold candidates_of. apply elem_of_app. right.
    apply elem_of_single_candidates. exists move, tgt, ps.
    repeat split; try assumption. apply Qltb_lt. lra.
  - intros my_moves me' opps ally prefer_slot Hs.
    pose proof (spread_score_zero_power move (Some me') opps mem ally Hbp) as Hz.
    split; [exact Hz|]. intros c Hc Hmove.
    unfold candidates_of in Hc. apply elem_of_app in Hc as [Hc|Hc].
    + apply elem_of_spread_candidates in Hc as [m [_ [_ [Hq E]]]].
      subst c. change (m = move) in Hmove. subst m.
      apply Qltb_lt in Hq. lra.
    + apply elem_of_single_candidates in Hc as [m [tgt [ps [_ [Hns [_ [_ E]]]]]]].
      subst c. change (m = move) in Hmove. subst m. congruence.
Qed.

(** X14. The move [_best_move_and_target] returns is one of the slot's
    moves, its score is positive and no candidate scores higher; a spread
    move comes back with target 0, any other move with the index (1 or 2)
    of a live opponent. *)
Theorem best_move_is_best (battle : Battle) (me : Pokemon)
    (opps : list (option Pokemon)) (mem : gmap string bool) (ally : option Pokemon)
    (prefer_slot : option nat) (s : Q) (m : Move) (ps : nat) (why : string) :
  _best_move_and_target battle me opps mem ally prefer_slot = (s, Some m, ps, why) ->
  m ∈ _moves_for_slot battle (_slot_index battle me)
  /\ 0 < s
  /\ (forall c,
        c ∈ candidates_of (_moves_for_slot battle (_slot_index battle me)) me opps mem
              ally prefer_slot ->
        cand_score c <= s)
  /\ ((_is_spread m = true /\ ps = 0%nat /\ why = "spread")
      \/ (_is_spread m = false /\ why = "single" /\ (ps = 1%nat \/ ps = 2%nat)
          /\ exists t, live opps !! (ps - 1)%nat = Some t)).
Proof.
  intros H. pose proof (best_move_is_candidate _ _ _ _ _ _ _ _ _ _ H) as Hc.
  assert (Hmax := fun c => best_move_max _ _ _ _ _ _ _ _ _ _ c H).
  unfold candidates_of in Hc. apply elem_of_app in Hc as [Hc|Hc].
  - apply elem_of_spread_candidates in Hc as [m' [Hm [Hs [Hq E]]]].
    inversion E. subst. split; [exact Hm|]. split; [apply Qltb_lt, Hq|].
    split; [exact Hmax|]. left. auto.
  - apply elem_of_single_candidates in Hc as [m' [tgt [ps' [Hm [Hs [Ht [Hq E]]]]]]].
    inversion E. subst. split; [exact Hm|]. split; [apply Qltb_lt, Hq|].
    split; [exact Hmax|]. right. apply tmap_lookup in Ht as [Hps Ht]. eauto 6.
Qed.

(** X15. [_best_move_and_target] returns no move in three cases only, each
    with score 0, target 0 and its own tag: the slot has no moves; it has
    moves but no opponent is live; or moves and live opponents but no
    candidate. *)
Theorem best_move_none_cases (battle : Battle) (me : Pokemon)
    (opps : list (option Pokemon)) (mem : gmap string bool) (ally : option Pokemon)
    (prefer_slot : option nat) (s : Q) (ps : nat) (why : string) :
  _best_move_and_target battle me opps mem ally prefer_slot = (s, None, ps, why) ->
  s = 0.0 /\ ps = 0%nat
  /\ ((why = "no-moves" /\ _moves_for_slot battle (_slot_index battle me) = [])
      \/ (why = "no-opps" /\ _moves_for_slot battle (_slot_index battle me) <> []
          /\ live opps = [])
      \/ (why = "no-cands" /\ _moves_for_slot battle (_slot_index battle me) <> []
          /\ live opps <> []
          /\ candidates_of (_moves_for_slot battle (_slot_index battle me)) me opps mem
               ally prefer_slot = [])).
Proof.
  unfold _best_move_and_target.
  destruct (_moves_for_slot battle (_slot_index battle me)) as [|m0 ms] eqn:Em.
  { intros H. inversion H. auto. }
  destruct (live opps) as [|o os] eqn:Elive.
  { intros H. inversion H. split; [reflexivity|]. split; [reflexivity|].
    right. left. auto. }
  destruct (sort_desc _) as [|[[[s' m'] ps'] why'] r] eqn:Esort; [|discriminate].
  intros H. inversion H. split; [reflexivity|]. split; [reflexivity|].
  right. right. split; [reflexivity|]. split; [discriminate|]. split; [discriminate|].
  apply Permutation_nil_r. rewrite <- Esort. symmetry. apply sort_desc_perm.
Qed.


(** ** Opponent memory, continued *)

Lemma ids_meet_existsb (ids : gset string) (mvs : list Move) :
  bool_decide ((list_to_set (map mid_of mvs) : gset string) ∩ ids ≠ ∅)
  = existsb (fun m => mem_of (mid_of m) ids) mvs.
Proof.
  destruct (existsb _ mvs) eqn:E.
  - apply existsb_exists in E as [m [Hm Hid]]. apply bool_decide_eq_true_2.
    intros Hempty. apply mem_of_true in Hid.
    assert (Hin : mid_of m ∈ (list_to_set (map mid_of mvs) : gset string) ∩ ids).
    { apply elem_of_intersection. split; [|exact Hid].
      apply elem_of_list_to_set, list_elem_of_In, in_map, Hm. }
    rewrite Hempty in Hin. apply not_elem_of_empty in Hin. exact Hin.
  - apply bool_decide_eq_false_2. intros Hne. apply Hne.
    apply set_eq. intros x. split; [|intros Hx; apply not_elem_of_empty in Hx; destruct Hx].
    intros Hx. apply elem_of_intersection in Hx as [Hx Hid].
    apply elem_of_list_to_set, list_elem_of_In, in_map_iff in Hx as [m [<- Hm]].
    assert (existsb (fun m => mem_of (mid_of m) ids) mvs = true).
    { apply existsb_exists. exists m. split; [exact Hm|]. apply mem_of_true, Hid. }
    congruence.
Qed.

Lemma observe_lookup (mem : gmap string bool) (mon : option Pokemon) (k : string) :
  observe mem mon !! k
  = if (String.eqb k "speed_ctrl" && mon_shows SPEED_CTRL mon)
       || (String.eqb k "protect" && mon_shows PROTECT_IDS mon)
    then Some true else mem !! k.
Proof.
  unfold observe, mon_shows. destruct mon as [p|]; [|rewrite !andb_false_r; reflexivity].
  destruct (moves p) as [|m0 ms] eqn:E.
  { simpl. rewrite !andb_false_r. reflexivity. }
  rewrite !ids_meet_existsb.
  destruct (existsb (fun m => mem_of (mid_of m) PROTECT_IDS) (m0 :: ms)) eqn:Ep;
    destruct (existsb (fun m => mem_of (mid_of m) SPEED_CTRL) (m0 :: ms)) eqn:Es;
    rewrite ?andb_true_r, ?andb_false_r;
    destruct (String.eqb_spec k "speed_ctrl") as [Eks|Hs];
    destruct (String.eqb_spec k "protect") as [Ekp|Hp];
    try (exfalso; congruence); cbn [orb]; try subst k;
    rewrite ?lookup_insert_eq; try reflexivity;
    repeat (rewrite lookup_insert_ne by congruence);
    rewrite ?lookup_insert_eq; reflexivity.
Qed.

Lemma fold_observe_lookup (team : list (option Pokemon)) (mem : gmap string bool)
    (k : string) :
  fold_left observe team mem !! k
  = if (String.eqb k "speed_ctrl" && existsb (mon_shows SPEED_CTRL) team)
       || (String.eqb k "protect" && existsb (mon_shows PROTECT_IDS) team)
    then Some true else mem !! k.
Proof.
  revert mem. induction team as [|o team IH]; intros mem; simpl.
  { rewrite !andb_false_r. reflexivity. }
  rewrite IH, observe_lookup.
  destruct (String.eqb k "speed_ctrl"), (String.eqb k "protect"),
    (mon_shows SPEED_CTRL o), (mon_shows PROTECT_IDS o),
    (existsb (mon_shows SPEED_CTRL) team), (existsb (mon_shows PROTECT_IDS) team);
    reflexivity.
Qed.

Lemma get_series_mem_stored (battle : Battle) (sm : gmap string (gmap string bool)) :
  (_get_series_mem battle sm).2 !! opp_key battle = Some (_get_series_mem battle sm).1.
Proof.
  unfold _get_series_mem. destruct (sm !! opp_key battle) eqn:E; simpl;
    [exact E|apply lookup_insert_eq].
Qed.

Lemma get_series_mem_frame (battle : Battle) (sm : gmap string (gmap string bool))
    (opp : string) :
  opp <> opp_key battle -> (_get_series_mem battle sm).2 !! opp = sm !! opp.
Proof.
  intros Hne. unfold _get_series_mem.
  destruct (sm !! opp_key battle); simpl; [reflexivity|].
  apply lookup_insert_ne. congruence.
Qed.

(** X17. Looking a record up twice gives the same record and, the second
    time, leaves the dictionary alone; the first lookup changes no record
    that was there and no key other than the opponent's. *)
Theorem get_series_mem_idempotent (battle : Battle)
    (sm : gmap string (gmap string bool)) :
  _get_series_mem battle (_get_series_mem battle sm).2
  = ((_get_series_mem battle sm).1, (_get_series_mem battle sm).2)
  /\ (forall opp, opp <> opp_key battle ->
      (_get_series_mem battle sm).2 !! opp = sm !! opp)
  /\ (forall opp mem, sm !! opp = Some mem ->
      (_get_series_mem battle sm).2 !! opp = Some mem).
Proof.
  split; [|split].
  - pose proof (get_series_mem_stored battle sm) as H.
    unfold _get_series_mem at 1. rewrite H. reflexivity.
  - intros opp Hne. apply get_series_mem_frame, Hne.
  - intros opp mem H. unfold _get_series_mem.
    destruct (sm !! opp_key battle) eqn:E; simpl; [exact H|].
    rewrite lookup_insert_ne; [exact H|]. intros <-. congruence.
Qed.

(** X18. After the end-of-battle update the opponent's record holds, for
    each of the two flags, [True] if some member of the roster has a known
    move of that family and the flag's earlier value otherwise; every
    other key of the record and every other opponent's record is as
    before. *)
Theorem update_series_mem_spec (battle : Battle)
    (sm : gmap string (gmap string bool)) :
  exists mem',
    _update_series_mem_from_battle battle sm !! opp_key battle = Some mem'
    /\ mem' !! "protect"
       = (if roster_shows PROTECT_IDS battle then Some true
          else (_get_series_mem battle sm).1 !! "protect")
    /\ mem' !! "speed_ctrl"
       = (if roster_shows SPEED_CTRL battle then Some true
          else (_get_series_mem battle sm).1 !! "speed_ctrl")
    /\ (forall k, k <> "protect" -> k <> "speed_ctrl" ->
        mem' !! k = (_get_series_mem battle sm).1 !! k)
    /\ (forall opp, opp <> opp_key battle ->
        _update_series_mem_from_battle battle sm !! opp = sm !! opp).
Proof.
  unfold _update_series_mem_from_battle, roster_shows.
  pose proof (get_series_mem_frame battle sm) as Hframe.
  destruct (_get_series_mem battle sm) as [mem sm']. simpl in *.
  eexists. split; [apply lookup_insert_eq|].
  split; [|split; [|split]].
  - rewrite fold_observe_lookup. reflexivity.
  - rewrite fold_observe_lookup. simpl. rewrite orb_false_r. reflexivity.
  - intros k Hp Hs. rewrite fold_observe_lookup.
    destruct (String.eqb_spec k "speed_ctrl"); [contradiction|].
    destruct (String.eqb_spec k "protect"); [contradiction|]. reflexivity.
  - intros opp Hne. rewrite lookup_insert_ne by congruence. apply Hframe, Hne.
Qed.

(** X19. Reporting the same finished battle twice changes nothing the
    second time. *)
Theorem update_series_mem_idempotent (battle : Battle)
    (sm : gmap string (gmap string bool)) :
  _update_series_mem_from_battle battle (_update_series_mem_from_battle battle sm)
  = _update_series_mem_from_battle battle sm.
Proof.
  assert (Hshape : exists mem sm',
            _update_series_mem_from_battle battle sm = <[opp_key battle := mem]> sm'
            /\ mem = fold_left observe (default [] (opponent_team battle))
                       (_get_series_mem battle sm).1).
  { unfold _update_series_mem_from_battle.
    destruct (_get_series_mem battle sm) as [mem sm']. eauto. }
  destruct Hshape as [mem' [sm' [-> Hmem']]].
  assert (Hget : _get_series_mem battle (<[opp_key battle := mem']> sm')
                 = (mem', <[opp_key battle := mem']> sm')).
  { unfold _get_series_mem. cbv zeta. rewrite lookup_insert_eq. reflexivity. }
  unfold _update_series_mem_from_battle. rewrite Hget.
  assert (Hsame : fold_left observe (default [] (opponent_team battle)) mem' = mem').
  { apply map_eq. intros k. rewrite Hmem', !fold_observe_lookup.
    destruct ((String.eqb k "speed_ctrl"
               && existsb (mon_shows SPEED_CTRL) (default [] (opponent_team battle)))
              || (String.eqb k "protect"
                  && existsb (mon_shows PROTECT_IDS) (default [] (opponent_team battle))));
      reflexivity. }
  rewrite Hsame. apply insert_insert_eq.
Qed.

(** X20. A turn never changes a record that exists: whatever the
    decision, and also when the evaluation raises, the dictionary after
    [choose_move] is the dictionary before, with an all-false record added
    when the opponent had none. *)
Theorem turn_only_adds_fresh_record (battle : Battle) (bot : Bot) :
  series_memory (choose_move battle bot).2
  = match series_memory bot !! opp_key battle with
    | Some _ => series_memory bot
    | None => <[opp_key battle := fresh_mem]> (series_memory bot)
    end.
Proof.
  rewrite choose_move_memory. unfold _get_series_mem.
  destruct (series_memory bot !! opp_key battle); reflexivity.
Qed.

(** ** The per-turn decision, continued *)


Lemma bind_ok_inv {A B} (c : M A) (k : A -> M B) (bot bot' : Bot) (b : B) :
  bind c k bot = (Ok b, bot') ->
  exists a bot1, c bot = (Ok a, bot1) /\ k a bot1 = (Ok b, bot').
Proof.
  unfold bind. destruct (c bot) as [[a|e] bot1]; [eauto|discriminate].
Qed.

Lemma lift_ok_inv {A} (r : result A) (bot bot' : Bot) (a : A) :
  lift r bot = (Ok a, bot') -> r = Ok a.
Proof. unfold lift. intros H. inversion H. reflexivity. Qed.

Lemma ret_ok_inv {A} (x a : A) (bot bot' : Bot) :
  ret x bot = (Ok a, bot') -> x = a.
Proof. unfold ret. intros H. inversion H. reflexivity. Qed.

Lemma first_move_in (p : Move -> bool) (l : list Move) (m : Move) :
  first_move p l = Some m -> m ∈ l.
Proof.
  unfold first_move. intros H. apply head_Some_elem_of in H.
  apply list_elem_of_filter in H as [_ H]. exact H.
Qed.

Lemma best_move_sound (battle : Battle) (me : Pokemon)
    (opps : list (option Pokemon)) (mem : gmap string bool) (ally : option Pokemon)
    (prefer_slot : option nat) (s : Q) (m : Move) (ps : nat) (why : string) :
  _best_move_and_target battle me opps mem ally prefer_slot = (s, Some m, ps, why) ->
  m ∈ _moves_for_slot battle (_slot_index battle me)
  /\ ((_is_spread m = true /\ ps = 0%nat)
      \/ (_is_spread m = false /\ (ps = 1%nat \/ ps = 2%nat)
          /\ is_Some (live opps !! (ps - 1)%nat))).
Proof.
  intros H. pose proof (best_move_is_candidate _ _ _ _ _ _ _ _ _ _ H) as Hc.
  unfold candidates_of in Hc. apply elem_of_app in Hc as [Hc|Hc].
  - apply elem_of_spread_candidates in Hc as [m' [Hm [Hs [Hq E]]]].
    inversion E. subst. auto.
  - apply elem_of_single_candidates in Hc as [m' [tgt [ps' [Hm [Hs [Ht [Hq E]]]]]]].
    inversion E. subst. split; [exact Hm|]. right.
    apply tmap_lookup in Ht as [Hps Ht]. rewrite Ht. eauto.
Qed.

Lemma choose_slot_fits (battle : Battle) (slot : nat) (me : Pokemon)
    (ally : option Pokemon) (mem : gmap string bool) (prefer_slot : option nat)
    (bot bot' : Bot) (o : BattleOrder) :
  _slot_index battle me = slot ->
  choose_slot battle slot me ally
    (filter (fun p => is_Some p) (opponent_active_pokemon battle)) mem prefer_slot bot
  = (Ok (Some o), bot') ->
  exists m t, create_order m t = Ok o /\ order_fits battle slot m t.
Proof.
  intros Hslot H. unfold choose_slot in H.
  destruct (_best_move_and_target _ _ _ _ _ _) as [[[s mv] tgt] why] eqn:Hbest.
  destruct mv as [m|].
  - apply best_move_sound in Hbest as [Hm Htgt]. rewrite Hslot in Hm.
    destruct (_requires_explicit_target m && (Nat.eqb tgt 1 || Nat.eqb tgt 2)) eqn:Hreq.
    + apply bind_ok_inv in H as [o' [b1 [Hc H]]]. apply lift_ok_inv in Hc.
      apply bind_ok_inv in H as [u [b2 [_ H]]].
      apply bind_ok_inv in H as [t [b3 [_ H]]].
      apply ret_ok_inv in H. inversion H. subst o'.
      exists m, (Some tgt). split; [exact Hc|]. split; [exact Hm|]. right.
      apply andb_true_iff in Hreq as [Hreq Ht12].
      exists tgt. split; [reflexivity|]. split; [exact Hreq|].
      destruct Htgt as [[Hsp H0]|[_ [H12 Hlive]]]; [|auto].
      subst tgt. discriminate Ht12.
    + apply bind_ok_inv in H as [o' [b1 [Hc H]]]. apply lift_ok_inv in Hc.
      apply bind_ok_inv in H as [t [b3 [_ H]]].
      apply ret_ok_inv in H. inversion H. subst o'.
      exists m, None. split; [exact Hc|]. split; [exact Hm|]. left. reflexivity.
  - cbv zeta in H.
    destruct (first_move (fun m => (0 <? base_power m)%Z && negb (_is_spread m))
                (_moves_for_slot battle slot)) as [m|] eqn:E1.
    + apply first_move_in in E1.
      apply bind_ok_inv in H as [o' [b1 [Hc H]]]. apply lift_ok_inv in Hc.
      apply bind_ok_inv in H as [t [b3 [_ H]]].
      apply ret_ok_inv in H. inversion H. subst o'.
      exists m, None. split; [exact Hc|]. split; [exact E1|]. left. reflexivity.
    + destruct (first_move (fun m => (0 <? base_power m)%Z)
                  (_moves_for_slot battle slot)) as [m|] eqn:E2.
      * apply first_move_in in E2.
        apply bind_ok_inv in H as [o' [b1 [Hc H]]]. apply lift_ok_inv in Hc.
        apply bind_ok_inv in H as [t [b3 [_ H]]].
        apply ret_ok_inv in H. inversion H. subst o'.
        exists m, None. split; [exact Hc|]. split; [exact E2|]. left. reflexivity.
      * apply bind_ok_inv in H as [t [b3 [_ H]]].
        apply ret_ok_inv in H. discriminate H.
Qed.

(** X22. With two active combatants, a decision that is not the one the
    random chooser gives is a double order made of one order per slot, each for a move the
    battle offers in that slot, and each with no target or with the index
    (1 or 2) of a live opponent for a move that needs a target. *)
Theorem chosen_orders_fit (battle : Battle) (bot bot' : Bot) (p0 p1 : Pokemon)
    (order : BattleOrder) :
  active_pokemon battle = [Some p0; Some p1] ->
  py_id p0 <> py_id p1 ->
  choose_move battle bot = (Ok order, bot') ->
  choose_random_doubles_move battle = Ok order
  \/ exists m0 t0 o0 m1 t1 o1,
       order = DoubleBattleOrder o0 o1
       /\ create_order m0 t0 = Ok o0 /\ order_fits battle 0 m0 t0
       /\ create_order m1 t1 = Ok o1 /\ order_fits battle 1 m1 t1.
Proof.
  intros Hact Hne H. unfold choose_move, try_except in H.
  destruct (choose_move_body battle bot) as [[o|e] b1] eqn:Hbody.
  2: { apply lift_ok_inv in H. left. exact H. }
  inversion H. subst. clear H.
  assert (S0 : _slot_index battle p0 = 0%nat).
  { unfold _slot_index. rewrite Hact. simpl. rewrite Nat.eqb_refl. reflexivity. }
  assert (S1 : _slot_index battle p1 = 1%nat).
  { unfold _slot_index. rewrite Hact. simpl.
    destruct (Nat.eqb_spec (py_id p0) (py_id p1)); [contradiction|].
    rewrite Nat.eqb_refl. reflexivity. }
  unfold choose_move_body in Hbody.
  apply bind_ok_inv in Hbody as [mem [b2 [_ Hbody]]].
  apply bind_ok_inv in Hbody as [u [b3 [_ Hbody]]].
  rewrite Hact in Hbody.
  change (omap (fun p => p) [Some p0; Some p1]) with [p0; p1] in Hbody.
  cbv beta iota zeta in Hbody.
  apply bind_ok_inv in Hbody as [r0 [b4 [H0 Hbody]]].
  destruct r0 as [o0|]; [|apply lift_ok_inv in Hbody; left; exact Hbody].
  apply bind_ok_inv in Hbody as [prefer [b5 [_ Hbody]]].
  apply bind_ok_inv in Hbody as [r1 [b6 [H1 Hbody]]].
  destruct r1 as [o1|]; [|apply lift_ok_inv in Hbody; left; exact Hbody].
  apply bind_ok_inv in Hbody as [t [b7 [_ Hbody]]].
  apply ret_ok_inv in Hbody.
  apply (choose_slot_fits _ _ _ _ _ _ _ _ _ S0) in H0 as [m0 [t0 [C0 F0]]].
  apply (choose_slot_fits _ _ _ _ _ _ _ _ _ S1) in H1 as [m1 [t1 [C1 F1]]].
  right. exists m0, t0, o0, m1, t1, o1. auto.
Qed.

(** X23. The focus a turn leaves behind does not reach the next turn:
    [choose_move] gives the same decision and the same final state
    whatever [_prefer_target_slot] holds when it is called. *)
Theorem stale_focus_is_ignored (battle : Battle) (bot : Bot) (v : option nat) :
  choose_move battle {| series_memory := series_memory bot; _prefer_target_slot := v |}
  = choose_move battle bot.
Proof.
  unfold choose_move, try_except, choose_move_body, bind, get_series_mem_m, set_prefer.
  cbv beta. cbn [series_memory _prefer_target_slot].
  destruct (_get_series_mem battle (series_memory bot)) as [mem sm]. reflexivity.
Qed.

Lemma map_flat_map_ext {A B C} (f : B -> C) (g h : A -> list B) (l : list A) :
  (forall x, map f (g x) = map f (h x)) ->
  map f (flat_map g l) = map f (flat_map h l).
Proof.
  intros H. induction l as [|x l IH]; [reflexivity|].
  simpl. rewrite !map_app, IH, H. reflexivity.
Qed.

(** X24. The focus on a target changes scores, never the field: with or
    without it the candidate list holds the same moves with the same
    targets in the same order. *)
Theorem focus_keeps_the_candidates (my_moves : list Move) (me : Pokemon)
    (opps : list (option Pokemon)) (mem : gmap string bool) (ally : option Pokemon)
    (prefer_slot : option nat) :
  map cand_key (candidates_of my_moves me opps mem ally prefer_slot)
  = map cand_key (candidates_of my_moves me opps mem ally None).
Proof.
  unfold candidates_of. rewrite !map_app. f_equal.
  unfold single_candidates. apply map_flat_map_ext. intros m.
  destruct (negb (_is_spread m)); [|reflexivity].
  apply map_flat_map_ext. intros [tgt ps].
  cbv zeta. cbn [fst snd prefers].
  set (s := _move_score_vs_single (Some m) (Some me) (Some tgt) mem).
  destruct (prefers prefer_slot ps); [|reflexivity].
  destruct (Qltb 0 s) eqn:E.
  - assert (Qltb 0 (s * 1.20) = true) as ->; [|reflexivity].
    apply Qltb_lt. apply Qltb_lt in E. lra.
  - assert (Qltb 0 (s * 1.20) = false) as ->; [|reflexivity].
    destruct (Qltb 0 (s * 1.20)) eqn:E'; [|reflexivity].
    apply Qltb_lt in E'. assert (0 < s) as H by lra.
    apply Qltb_lt in H. congruence.
Qed.

(** ** Runs of the player, continued *)

Lemma two_flags_fresh : two_flags fresh_mem.
Proof.
  intros k. unfold fresh_mem. rewrite !lookup_insert, lookup_empty.
  repeat case_decide; subst; split; intros Hk; auto;
    try (eexists; reflexivity); try (destruct Hk as [? Hk]; discriminate Hk);
    destruct Hk; congruence.
Qed.

Lemma two_flags_fold_observe (team : list (option Pokemon)) (mem : gmap string bool) :
  two_flags mem -> two_flags (fold_left observe team mem).
Proof.
  intros H k. specialize (H k). rewrite fold_observe_lookup.
  destruct (String.eqb_spec k "speed_ctrl") as [Es|Hs];
    destruct (String.eqb_spec k "protect") as [Ep|Hp]; cbn [andb orb];
    repeat match goal with
    | |- context [if ?b then _ else _] => destruct b
    end; try exact H;
    (split; [intros _; auto|intros _; eexists; reflexivity]).
Qed.

Lemma step_memory (bot : Bot) (ev : event) :
  exists mem,
    series_memory (step bot ev) = <[event_key ev := mem]> (series_memory bot)
    /\ (two_flags (default fresh_mem (series_memory bot !! event_key ev)) ->
        two_flags mem).
Proof.
  destruct ev as [battle|battle]; simpl.
  - rewrite choose_move_memory. unfold _get_series_mem.
    destruct (series_memory bot !! opp_key battle) as [mem|] eqn:E; simpl.
    + exists mem. split; [symmetry; apply insert_id, E|auto].
    + exists fresh_mem. split; [reflexivity|auto].
  - unfold _update_series_mem_from_battle, _get_series_mem.
    destruct (series_memory bot !! opp_key battle) as [mem|] eqn:E; simpl.
    + eexists. split; [reflexivity|]. apply two_flags_fold_observe.
    + eexists. split; [apply insert_insert_eq|]. apply two_flags_fold_observe.
Qed.

(** X25. From the player's start on, after any sequence of turns and
    finished battles, the dictionary holds one record for each opponent
    met and no other, and every record holds its two flags and no other
    key: reading a flag never misses. *)
Theorem memory_records_well_formed (evs : list event) :
  dom (series_memory (run evs init_bot)) = list_to_set (map event_key evs)
  /\ (forall opp mem,
        series_memory (run evs init_bot) !! opp = Some mem -> two_flags mem).
Proof.
  assert (G : forall bot,
    (forall opp mem, series_memory bot !! opp = Some mem -> two_flags mem) ->
    dom (series_memory (run evs bot))
    = list_to_set (map event_key evs) ∪ dom (series_memory bot)
    /\ (forall opp mem, series_memory (run evs bot) !! opp = Some mem -> two_flags mem)).
  { unfold run. induction evs as [|ev evs IH]; intros bot Hwf; simpl.
    - split; [|exact Hwf]. rewrite (left_id_L ∅ (∪)). reflexivity.
    - destruct (step_memory bot ev) as [mem [Hstep Hmem]].
      assert (Hwf' : forall opp m, series_memory (step bot ev) !! opp = Some m ->
                                   two_flags m).
      { intros opp m. rewrite Hstep, lookup_insert. case_decide.
        - intros Hm. inversion Hm. subst. apply Hmem.
          destruct (series_memory bot !! event_key ev) as [m0|] eqn:E; simpl.
          + eapply Hwf, E.
          + apply two_flags_fresh.
        - apply Hwf. }
      destruct (IH (step bot ev) Hwf') as [Hdom Hall]. split; [|exact Hall].
      rewrite Hdom, Hstep, dom_insert_L.
      rewrite (assoc_L (∪)). f_equal. apply (comm_L (∪)). }
  destruct (G init_bot) as [Hdom Hall].
  { intros opp mem H. simpl in H. rewrite lookup_empty in H. discriminate H. }
  split; [|exact Hall]. rewrite Hdom. simpl series_memory.
  rewrite dom_empty_L. apply (right_id_L ∅ (∪)).
Qed.
End Bot.

(** * Concrete runs *)

(** The stage multiplier at the ends of the range and in the middle. *)
Example stage_mod_values :
  _stage_mod (-6) == 1 # 4 /\ _stage_mod 0 == 1 /\ _stage_mod 6 == 4.
Proof. repeat split; vm_compute; reflexivity. Qed.

(** A whole turn: the lead aims Earth Power at the Fire opponent (target
    1), and its partner follows onto the same target. *)
Example choose_move_sample_turn :
  (choose_move Sample.chart Sample.Order Sample.create_order Sample.double_order
     Sample.random_order (Sample.battle (Some "rival") (Some 1%nat)) init_bot).1
  = Ok [(Some 1%nat, "earthpower"); (Some 1%nat, "tackle")].
Proof. vm_compute. reflexivity. Qed.

(** Earthquake into a Fire and a Flying opponent next to a grounded
    partner: one target is hit, and the friendly-fire factor applies. *)
Example earthquake_sample_score :
  _move_score_spread Sample.chart (Some Sample.earthquake) (Some Sample.lead)
    [Some Sample.foe_a; Some Sample.foe_b] ∅ (Some Sample.partner)
  == (100 * 1.5 * 2 * 1.06) * 0.20 * 0.75 * 1.03.
Proof. vm_compute. reflexivity. Qed.

(** C10: at stage 10^400 the division raises [OverflowError], and at
    stage -10^400 it returns 0.0: the multiplier is not defined and
    positive at every integer stage. *)
Lemma stage_mod_not_total_on_all_integers :
  truediv (2 + Z.max (10 ^ 400) 0) (_stage_mod_den (10 ^ 400)) = Raise OverflowError
  /\ truediv (2 + Z.max (- 10 ^ 400) 0) (_stage_mod_den (- 10 ^ 400)) = Ok 0
  /\ ~ (forall stage : Z,
          exists q, truediv (2 + Z.max stage 0) (_stage_mod_den stage) = Ok q /\ 0 < q).
Proof.
  split; [vm_compute; reflexivity|]. split; [vm_compute; reflexivity|].
  intros H. destruct (H (10 ^ 400)%Z) as [q [Hq _]].
  vm_compute in Hq. discriminate Hq.
Qed.

Lemma stage_mod_positive_within_doubles_witness :
  (2 - 2 ^ 1076 < -6 < 2 ^ 1025 - 2 ^ 971 - 2)%Z
  /\ truediv (2 + Z.max (-6) 0) (_stage_mod_den (-6)) = Ok (_stage_mod (-6))
  /\ 0 < _stage_mod (-6).
Proof.
  assert (H : (2 - 2 ^ 1076 < -6 < 2 ^ 1025 - 2 ^ 971 - 2)%Z)
    by (split; reflexivity).
  split; [exact H|].
  pose proof (stage_mod_positive_within_doubles (-6)) as [_ [Hpos [Hok _]]].
  split; [exact (Hok H)|exact Hpos].
Defined.

(** C1: with the attack stage at 0 the code scores Swords Dance 26, where
    the specification's wording (1.5 per stage up to the cap of 6) gives
    35. *)
Lemma setup_move_score_not_to_cap :
  base_power Sample.swords_dance = 0%Z
  /\ mid_of Sample.swords_dance ∈ SETUP_IDS
  /\ spec_setup_score (boost (Some Sample.lead) "atk") == 35
  /\ ~ (_move_score_vs_single Sample.chart (Some Sample.swords_dance)
          (Some Sample.lead) (Some Sample.foe_a) ∅
        == spec_setup_score (boost (Some Sample.lead) "atk")).
Proof.
  split; [reflexivity|]. split; [vm_compute; reflexivity|].
  split; [vm_compute; reflexivity|].
  vm_compute. discriminate.
Qed.

Lemma setup_move_score_witness :
  base_power Sample.swords_dance = 0%Z
  /\ mid_of Sample.swords_dance ∈ SETUP_IDS
  /\ _move_score_vs_single Sample.chart (Some Sample.swords_dance)
       (Some Sample.lowered) (Some Sample.foe_a) ∅ == 29.
Proof.
  assert (Hid : mid_of Sample.swords_dance ∈ SETUP_IDS) by (vm_compute; reflexivity).
  split; [reflexivity|]. split; [exact Hid|].
  rewrite (setup_move_score Sample.chart Sample.swords_dance (Some Sample.lowered)
             (Some Sample.foe_a) ∅ eq_refl Hid).
  vm_compute. reflexivity.
Defined.

(** C2: Stealth Rock is aimed at foeside and is not a known spread move;
    the code does not classify it as spread. *)
Lemma foeside_is_not_spread :
  _target_str Sample.stealth_rock ∈ SPEC_SPREAD_TARGETS
  /\ ~ (_is_spread Sample.stealth_rock = true
        <-> mid_of Sample.stealth_rock ∈ SPREAD_HINTS
            \/ _target_str Sample.stealth_rock ∈ SPEC_SPREAD_TARGETS).
Proof.
  assert (Ht : _target_str Sample.stealth_rock ∈ SPEC_SPREAD_TARGETS)
    by (vm_compute; reflexivity).
  split; [exact Ht|]. intros [_ H].
  specialize (H (or_intror Ht)). vm_compute in H. discriminate H.
Qed.

Lemma is_spread_iff_witness :
  _target_str Sample.stealth_rock = "foeside"
  /\ (mid_of Sample.stealth_rock ∉ SPREAD_HINTS)
  /\ _is_spread Sample.stealth_rock = false.
Proof.
  assert (Hid : mid_of Sample.stealth_rock ∉ SPREAD_HINTS)
    by (apply mem_of_false; vm_compute; reflexivity).
  split; [reflexivity|]. split; [exact Hid|].
  exact (proj2 (is_spread_iff Sample.stealth_rock) eq_refl Hid).
Defined.



(** C4: Earthquake next to a Flying partner. *)
Lemma spread_score_formula_witness :
  friendly_fire_applies Sample.earthquake [Some Sample.foe_a; Some Sample.foe_b]
    (Some Sample.flier) = false
  /\ _move_score_spread Sample.chart (Some Sample.earthquake) (Some Sample.lead)
       [Some Sample.foe_a; Some Sample.foe_b] ∅ (Some Sample.flier)
     == 0.75 * 1.03
        * spread_sum Sample.chart Sample.earthquake (Some Sample.lead)
            [Some Sample.foe_a; Some Sample.foe_b].
Proof.
  split; [vm_compute; reflexivity|].
  apply (spread_score_formula Sample.chart). vm_compute. reflexivity.
Defined.

(** C5: Earthquake next to a grounded partner. *)
Lemma friendly_fire_penalty_factor_witness :
  mid_of Sample.earthquake ∈ AOE_FRIENDLY_FIRE
  /\ (exists t, t ∈ live [Some Sample.foe_a; Some Sample.foe_b]
                /\ immune Sample.chart Sample.earthquake t = false)
  /\ _ally_safe_for_aoe (mid_of Sample.earthquake) (move_type Sample.earthquake)
       (Some Sample.partner) = false
  /\ _move_score_spread Sample.chart (Some Sample.earthquake) (Some Sample.lead)
       [Some Sample.foe_a; Some Sample.foe_b] ∅ (Some Sample.partner)
     == 0.20 * _move_score_spread Sample.chart (Some Sample.earthquake)
                 (Some Sample.lead) [Some Sample.foe_a; Some Sample.foe_b] ∅ None.
Proof.
  assert (Hid : mid_of Sample.earthquake ∈ AOE_FRIENDLY_FIRE) by (vm_compute; reflexivity).
  assert (Hhit : exists t, t ∈ live [Some Sample.foe_a; Some Sample.foe_b]
                           /\ immune Sample.chart Sample.earthquake t = false).
  { exists Sample.foe_a. split; [apply list_elem_of_here|vm_compute; reflexivity]. }
  assert (Hsafe : _ally_safe_for_aoe (mid_of Sample.earthquake)
                    (move_type Sample.earthquake) (Some Sample.partner) = false)
    by (vm_compute; reflexivity).
  split; [exact Hid|]. split; [exact Hhit|]. split; [exact Hsafe|].
  exact (friendly_fire_penalty_factor Sample.chart Sample.earthquake (Some Sample.lead)
           [Some Sample.foe_a; Some Sample.foe_b] ∅ Sample.partner Hid Hhit Hsafe).
Defined.

(** C6: Earth Power against a Flying opponent, the second live
    opponent. *)
Lemma immune_pair_never_candidate_witness :
  (0 < base_power Sample.earth_power)%Z
  /\ _eff Sample.chart (move_type Sample.earth_power) (Some Sample.foe_b) == 0
  /\ _move_score_vs_single Sample.chart (Some Sample.earth_power) (Some Sample.lead)
       (Some Sample.foe_b) ∅ == 0
  /\ (Sample.foe_b, 2%nat) ∈ tmap (live [Some Sample.foe_a; Some Sample.foe_b])
  /\ (forall c,
        c ∈ candidates_of Sample.chart [Sample.tackle; Sample.earth_power] Sample.lead
              [Some Sample.foe_a; Some Sample.foe_b] ∅ (Some Sample.partner) None ->
        ~ (cand_move c = Sample.earth_power /\ cand_target c = 2%nat)).
Proof.
  assert (Hbp : (0 < base_power Sample.earth_power)%Z) by reflexivity.
  assert (Heff : _eff Sample.chart (move_type Sample.earth_power) (Some Sample.foe_b) == 0)
    by (vm_compute; reflexivity).
  assert (Hps : (Sample.foe_b, 2%nat) ∈ tmap (live [Some Sample.foe_a; Some Sample.foe_b]))
    by (simpl; apply list_elem_of_further, list_elem_of_here).
  pose proof (immune_pair_never_candidate Sample.chart Sample.earth_power Sample.foe_b
                ∅ Hbp Heff) as [Hzero [Hnever _]].
  split; [exact Hbp|]. split; [exact Heff|]. split; [exact (Hzero (Some Sample.lead))|].
  split; [exact Hps|].
  intros c Hc. exact (Hnever _ _ _ _ _ _ c Hps Hc).
Defined.

(** C7: Beat Up aimed at "any". *)
Lemma harmful_ally_single_scores_zero_witness :
  (0 < base_power Sample.beat_up)%Z
  /\ _target_str Sample.beat_up ∈ ALLY_TARGETS
  /\ mid_of Sample.beat_up ∈ HARMFUL_ALLY_SINGLES
  /\ _move_score_vs_single Sample.chart (Some Sample.beat_up) (Some Sample.lead)
       (Some Sample.foe_a) ∅ == 0.
Proof.
  assert (Hbp : (0 < base_power Sample.beat_up)%Z) by reflexivity.
  assert (Ht : _target_str Sample.beat_up ∈ ALLY_TARGETS) by (vm_compute; reflexivity).
  assert (Hid : mid_of Sample.beat_up ∈ HARMFUL_ALLY_SINGLES) by (vm_compute; reflexivity).
  split; [exact Hbp|]. split; [exact Ht|]. split; [exact Hid|].
  exact (harmful_ally_single_scores_zero Sample.chart Sample.beat_up (Some Sample.lead)
           (Some Sample.foe_a) ∅ Hbp Ht Hid).
Defined.


(** C9: one opponent without a name, one with an empty name. *)
Lemma unknown_opponents_share_profile_witness :
  unknown_opponent (Sample.battle None (Some 1%nat))
  /\ unknown_opponent (Sample.battle (Some "") (Some 1%nat))
  /\ shows_protect (Sample.battle None (Some 1%nat))
  /\ _move_score_vs_single Sample.chart (Some Sample.protect) (Some Sample.partner)
       (Some Sample.foe_a)
       (_get_series_mem (Sample.battle (Some "") (Some 1%nat))
          (_update_series_mem_from_battle (Sample.battle None (Some 1%nat)) ∅)).1
     == 31.
Proof.
  assert (H1 : unknown_opponent (Sample.battle None (Some 1%nat))) by (left; reflexivity).
  assert (H2 : unknown_opponent (Sample.battle (Some "") (Some 1%nat)))
    by (right; reflexivity).
  assert (Hp : shows_protect (Sample.battle None (Some 1%nat))).
  { exists [Some Sample.foe_a; Some Sample.foe_b], Sample.foe_a, Sample.protect.
    split; [reflexivity|]. split; [apply list_elem_of_here|].
    split; [apply list_elem_of_here|vm_compute; reflexivity]. }
  assert (Hid : mid_of Sample.protect ∈ PROTECT_IDS) by (vm_compute; reflexivity).
  split; [exact H1|]. split; [exact H2|]. split; [exact Hp|].
  exact (proj2 (proj2 (proj2 (proj2 (unknown_opponents_share_profile Sample.chart _ _ ∅
           H1 H2))) Hp Sample.protect (Some Sample.partner) (Some Sample.foe_a)
           eq_refl Hid)).
Defined.

(** * Concrete runs of the further properties *)

Lemma classifier_ignores_case_witness :
  move_id Sample.mixed_case = Some "EarthQuake"
  /\ target Sample.mixed_case = TargetStr "allAdjacent"
  /\ _is_spread Sample.earthquake = _is_spread Sample.mixed_case.
Proof.
  split; [reflexivity|]. split; [reflexivity|].
  exact (proj1 (proj2 (proj2 (classifier_ignores_case Sample.mixed_case "EarthQuake"
                                 "allAdjacent" eq_refl eq_refl)))).
Defined.

Lemma requires_explicit_target_iff_witness :
  _is_spread Sample.earthquake = true
  /\ _requires_explicit_target Sample.earthquake = false.
Proof.
  assert (H : _is_spread Sample.earthquake = true) by (vm_compute; reflexivity).
  split; [exact H|].
  exact (proj2 (requires_explicit_target_iff Sample.earthquake) H).
Defined.


Lemma status_move_score_at_least_4_witness :
  base_power Sample.stealth_rock = 0%Z
  /\ 4 <= _move_score_vs_single Sample.chart (Some Sample.stealth_rock)
            (Some Sample.lead) (Some Sample.foe_a) ∅.
Proof.
  split; [reflexivity|].
  exact (proj1 (status_move_score_at_least_4 Sample.chart Sample.stealth_rock
                  (Some Sample.lead) (Some Sample.foe_a) ∅ eq_refl)).
Defined.

(** Trick Room has base power 0 and targets all: it is classified as
    spread, scores 0 in the spread scorer and is no candidate. *)
Example trick_room_is_no_candidate :
  base_power Sample.trick_room = 0%Z
  /\ _is_spread Sample.trick_room = true
  /\ candidates_of Sample.chart [Sample.trick_room] Sample.lead
       [Some Sample.foe_a; Some Sample.foe_b] ∅ (Some Sample.partner) None = [].
Proof. repeat split; vm_compute; reflexivity. Qed.


Lemma protect_risk_scales_damaging_score_witness :
  base_power Sample.tackle <> 0%Z
  /\ move_id Sample.protect = Some "protect"
  /\ lower "protect" ∈ PROTECT_IDS
  /\ _move_score_vs_single Sample.chart (Some Sample.tackle) (Some Sample.partner)
       (Some (with_last_move Sample.foe_a (Some Sample.protect))) ∅
     == 0.6 * _move_score_vs_single Sample.chart (Some Sample.tackle)
                (Some Sample.partner) (Some (with_last_move Sample.foe_a None)) ∅.
Proof.
  assert (Hbp : base_power Sample.tackle <> 0%Z) by discriminate.
  assert (Hp : lower "protect" ∈ PROTECT_IDS) by (vm_compute; reflexivity).
  split; [exact Hbp|]. split; [reflexivity|]. split; [exact Hp|].
  exact (protect_risk_scales_damaging_score Sample.chart Sample.tackle
           (Some Sample.partner) Sample.foe_a Sample.protect "protect" ∅ Hbp eq_refl Hp).
Defined.

Lemma effectiveness_tiers_witness :
  base_power Sample.earth_power <> 0%Z
  /\ ally_guard Sample.earth_power = false
  /\ _eff Sample.chart_rock (move_type Sample.earth_power) (Some Sample.foe_plain) == 1
  /\ _eff Sample.chart_rock (move_type Sample.earth_power) (Some Sample.foe_fire_rock) == 4
  /\ _move_score_vs_single Sample.chart_rock (Some Sample.earth_power)
       (Some Sample.lead) (Some Sample.foe_fire_rock) ∅
     == 4.8 * _move_score_vs_single Sample.chart_rock (Some Sample.earth_power)
                (Some Sample.lead) (Some Sample.foe_plain) ∅
  /\ _eff Sample.chart_rock (move_type Sample.earth_power) (Some Sample.foe_a) == 2
  /\ _move_score_vs_single Sample.chart_rock (Some Sample.earth_power)
       (Some Sample.lead) (Some Sample.foe_a) ∅
     == 2.24 * _move_score_vs_single Sample.chart_rock (Some Sample.earth_power)
                 (Some Sample.lead) (Some Sample.foe_plain) ∅.
Proof.
  assert (Hbp : base_power Sample.earth_power <> 0%Z) by discriminate.
  assert (Hg : ally_guard Sample.earth_power = false) by (vm_compute; reflexivity).
  assert (H1 : _eff Sample.chart_rock (move_type Sample.earth_power)
                 (Some Sample.foe_plain) == 1) by (vm_compute; reflexivity).
  assert (H4 : _eff Sample.chart_rock (move_type Sample.earth_power)
                 (Some Sample.foe_fire_rock) == 4) by (vm_compute; reflexivity).
  assert (H2 : _eff Sample.chart_rock (move_type Sample.earth_power)
                 (Some Sample.foe_a) == 2) by (vm_compute; reflexivity).
  split; [exact Hbp|]. split; [exact Hg|]. split; [exact H1|]. split; [exact H4|].
  split; [|split; [exact H2|]].
  - exact (proj1 (effectiveness_tiers Sample.chart_rock Sample.earth_power
                    (Some Sample.lead) Sample.foe_plain Sample.foe_fire_rock ∅
                    Hbp Hg eq_refl eq_refl H1) H4).
  - exact (proj2 (effectiveness_tiers Sample.chart_rock Sample.earth_power
                    (Some Sample.lead) Sample.foe_plain Sample.foe_a ∅
                    Hbp Hg eq_refl eq_refl H1) H2).
Defined.

Lemma spread_score_bounds_witness :
  (0 <= base_power Sample.earthquake)%Z
  /\ 0 <= _move_score_spread Sample.chart (Some Sample.earthquake) (Some Sample.lead)
            [Some Sample.foe_a; Some Sample.foe_b] ∅ (Some Sample.partner)
  /\ _move_score_spread Sample.chart (Some Sample.earthquake) (Some Sample.lead)
       [Some Sample.foe_a; Some Sample.foe_b] ∅ (Some Sample.partner)
     <= _move_score_spread Sample.chart (Some Sample.earthquake) (Some Sample.lead)
          [Some Sample.foe_a; Some Sample.foe_b] ∅ None.
Proof.
  assert (Hbp : (0 <= base_power Sample.earthquake)%Z) by (vm_compute; discriminate).
  assert (Hacc : forall a, accuracy Sample.earthquake = Some a -> 0 <= a).
  { intros a H. inversion H. vm_compute. discriminate. }
  assert (Heff : forall t, t ∈ live [Some Sample.foe_a; Some Sample.foe_b] ->
                 0 <= _eff Sample.chart (move_type Sample.earthquake) (Some t)).
  { intros t Ht. change (t ∈ [Sample.foe_a; Sample.foe_b]) in Ht.
    apply elem_of_cons in Ht as [->|Ht]; [vm_compute; discriminate|].
    apply elem_of_cons in Ht as [->|Ht]; [vm_compute; discriminate|].
    inversion Ht. }
  split; [exact Hbp|].
  pose proof (spread_score_bounds Sample.chart Sample.earthquake (Some Sample.lead)
                [Some Sample.foe_a; Some Sample.foe_b] ∅ (Some Sample.partner)
                Hbp Hacc Heff) as [H0 [H1 _]].
  split; assumption.
Defined.

Lemma no_live_opponent_witness :
  Forall (fun o => match o with Some p => fainted p = true | None => True end)
    [Some Sample.foe_fainted; None]
  /\ _move_score_spread Sample.chart (Some Sample.earthquake) (Some Sample.lead)
       [Some Sample.foe_fainted; None] ∅ (Some Sample.partner) == 0
  /\ _best_move_and_target Sample.chart Sample.battle_no_foe Sample.lead
       [Some Sample.foe_fainted; None] ∅ (Some Sample.partner) None
     = (0.0, None, 0%nat, "no-opps").
Proof.
  assert (H : Forall (fun o => match o with Some p => fainted p = true | None => True end)
                [Some Sample.foe_fainted; None]).
  { constructor; [reflexivity|]. constructor; [exact I|]. constructor. }
  split; [exact H|].
  pose proof (no_live_opponent Sample.chart Sample.battle_no_foe Sample.lead
                Sample.earthquake [Some Sample.foe_fainted; None] ∅
                (Some Sample.partner) None H) as [H0 H1].
  split; [exact H0|]. apply H1. vm_compute. discriminate.
Defined.

Lemma ally_safe_only_by_protection_witness :
  _ally_safe_for_aoe "sludgewave" (Some "Poison") (Some Sample.telepath) = true
  /\ (_ally_safe_for_aoe "Earthquake" (Some "Ground") (Some Sample.levitator) = true
      /\ lower "Earthquake" ∈ ORACLE_COVERED).
Proof.
  split.
  - exact (proj1 (ally_safe_only_by_protection "sludgewave" (Some "Poison")
                    Sample.telepath) eq_refl).
  - assert (Hsafe : _ally_safe_for_aoe "Earthquake" (Some "Ground")
                      (Some Sample.levitator) = true) by (vm_compute; reflexivity).
    split; [exact Hsafe|].
    refine (proj1 (proj2 (ally_safe_only_by_protection "Earthquake" (Some "Ground")
                            Sample.levitator) _ Hsafe)).
    vm_compute. discriminate.
Defined.

Lemma slot_index_range_witness :
  is_obj_at (Sample.battle None None) 0 Sample.partner = false
  /\ is_obj_at (Sample.battle None None) 1 Sample.partner = true
  /\ _slot_index (Sample.battle None None) Sample.partner = 1%nat.
Proof.
  split; [reflexivity|]. split; [reflexivity|].
  exact (proj2 (proj2 (slot_index_range (Sample.battle None None) Sample.partner))
           (conj eq_refl eq_refl)).
Defined.

Lemma moves_for_slot_available_witness :
  available_moves (Sample.battle None None)
  = MovesPerSlot [[Sample.tackle; Sample.earth_power]; [Sample.tackle; Sample.protect]]
  /\ _moves_for_slot (Sample.battle None None) 2 = [].
Proof.
  split; [reflexivity|].
  refine (proj1 (proj2 (moves_for_slot_available (Sample.battle None None) 2))
            _ eq_refl _ _).
  - discriminate.
  - simpl. lia.
Defined.

Lemma sort_desc_correct_witness :
  sort_desc [(1, Sample.tackle, 1%nat, "single"); (2, Sample.tackle, 2%nat, "single");
             (2, Sample.earth_power, 1%nat, "single")]
  = [(2, Sample.tackle, 2%nat, "single"); (2, Sample.earth_power, 1%nat, "single");
     (1, Sample.tackle, 1%nat, "single")]
  /\ exists l1 l2 : list Candidate,
       [(1, Sample.tackle, 1%nat, "single"); (2, Sample.tackle, 2%nat, "single");
        (2, Sample.earth_power, 1%nat, "single")]
       = (l1 ++ (2, Sample.tackle, 2%nat, "single") :: l2)%list
       /\ Forall (fun c => cand_score c < 2) l1
       /\ Forall (fun c => cand_score c <= 2) l2.
Proof.
  assert (H : sort_desc [(1, Sample.tackle, 1%nat, "single");
                         (2, Sample.tackle, 2%nat, "single");
                         (2, Sample.earth_power, 1%nat, "single")]
              = [(2, Sample.tackle, 2%nat, "single");
                 (2, Sample.earth_power, 1%nat, "single");
                 (1, Sample.tackle, 1%nat, "single")]) by reflexivity.
  split; [exact H|].
  exact (proj2 (proj2 (sort_desc_correct _)) _ _ H).
Defined.

Lemma best_move_is_best_witness :
  exists s,
    _best_move_and_target Sample.chart (Sample.battle None None) Sample.lead
      [Some Sample.foe_a; Some Sample.foe_b] ∅ (Some Sample.partner) None
    = (s, Some Sample.earth_power, 1%nat, "single")
    /\ 0 < s
    /\ Sample.earth_power
       ∈ _moves_for_slot (Sample.battle None None)
           (_slot_index (Sample.battle None None) Sample.lead).
Proof.
  destruct (_best_move_and_target Sample.chart (Sample.battle None None) Sample.lead
              [Some Sample.foe_a; Some Sample.foe_b] ∅ (Some Sample.partner) None)
    as [[[s mv] ps] why] eqn:H.
  pose proof H as H'. vm_compute in H'. inversion H'. subst.
  eexists. split; [reflexivity|].
  pose proof (best_move_is_best Sample.chart _ _ _ _ _ _ _ _ _ _ H) as [Hm [Hs _]].
  split; [exact Hs|exact Hm].
Defined.

Lemma best_move_none_cases_witness :
  _best_move_and_target Sample.chart Sample.battle_walled Sample.lead
    [Some Sample.foe_b] ∅ (Some Sample.partner) None
  = (0.0, None, 0%nat, "no-cands")
  /\ candidates_of Sample.chart
       (_moves_for_slot Sample.battle_walled (_slot_index Sample.battle_walled Sample.lead))
       Sample.lead [Some Sample.foe_b] ∅ (Some Sample.partner) None = [].
Proof.
  assert (H : _best_move_and_target Sample.chart Sample.battle_walled Sample.lead
                [Some Sample.foe_b] ∅ (Some Sample.partner) None
              = (0.0, None, 0%nat, "no-cands")) by reflexivity.
  split; [exact H|].
  destruct (best_move_none_cases Sample.chart _ _ _ _ _ _ _ _ _ H)
    as [_ [_ [[E _]|[[E _]|[_ [_ [_ Hc]]]]]]];
    [discriminate E|discriminate E|exact Hc].
Defined.


Lemma get_series_mem_idempotent_witness :
  ({[ "rival" := fresh_mem ]} : gmap string (gmap string bool)) !! "rival" = Some fresh_mem
  /\ (_get_series_mem (Sample.battle None None) {[ "rival" := fresh_mem ]}).2 !! "rival"
     = Some fresh_mem.
Proof.
  assert (H : ({[ "rival" := fresh_mem ]} : gmap string (gmap string bool)) !! "rival"
              = Some fresh_mem) by apply lookup_singleton_eq.
  split; [exact H|].
  exact (proj2 (proj2 (get_series_mem_idempotent (Sample.battle None None)
                         {[ "rival" := fresh_mem ]})) "rival" fresh_mem H).
Defined.

Lemma update_series_mem_spec_witness :
  exists mem',
    _update_series_mem_from_battle (Sample.battle None None) ∅ !! "_unknown_" = Some mem'
    /\ mem' !! "protect" = Some true
    /\ mem' !! "speed_ctrl" = Some false.
Proof.
  destruct (update_series_mem_spec (Sample.battle None None) ∅)
    as [mem' [H [Hp [Hs _]]]].
  exists mem'. split; [exact H|]. split.
  - rewrite Hp. vm_compute. reflexivity.
  - rewrite Hs. vm_compute. reflexivity.
Defined.


Lemma chosen_orders_fit_witness :
  active_pokemon (Sample.battle None (Some 1%nat))
  = [Some Sample.lead; Some Sample.partner]
  /\ py_id Sample.lead <> py_id Sample.partner
  /\ exists order bot',
       choose_move Sample.chart Sample.Order Sample.create_order Sample.double_order
         Sample.random_order (Sample.battle None (Some 1%nat)) init_bot
       = (Ok order, bot')
       /\ (Sample.random_order (Sample.battle None (Some 1%nat)) = Ok order
           \/ exists m0 t0 o0 m1 t1 o1,
                order = Sample.double_order o0 o1
                /\ Sample.create_order m0 t0 = Ok o0
                /\ order_fits (Sample.battle None (Some 1%nat)) 0 m0 t0
                /\ Sample.create_order m1 t1 = Ok o1
                /\ order_fits (Sample.battle None (Some 1%nat)) 1 m1 t1).
Proof.
  assert (Hne : py_id Sample.lead <> py_id Sample.partner) by discriminate.
  split; [reflexivity|]. split; [exact Hne|].
  destruct (choose_move Sample.chart Sample.Order Sample.create_order Sample.double_order
              Sample.random_order (Sample.battle None (Some 1%nat)) init_bot)
    as [[order|e] bot'] eqn:H.
  - exists order, bot'. split; [reflexivity|].
    exact (chosen_orders_fit Sample.chart Sample.Order Sample.create_order
             Sample.double_order Sample.random_order (Sample.battle None (Some 1%nat))
             init_bot bot' Sample.lead Sample.partner order eq_refl Hne H).
  - vm_compute in H. discriminate H.
Defined.

Lemma memory_records_well_formed_witness :
  exists mem,
    series_memory
      (run Sample.chart Sample.Order Sample.create_order Sample.double_order
         Sample.random_order
         [Turn (Sample.battle (Some "rival") (Some 1%nat));
          Finished (Sample.battle None (Some 1%nat))] init_bot) !! "_unknown_"
    = Some mem
    /\ two_flags mem.
Proof.
  eexists. split; [vm_compute; reflexivity|].
  apply (proj2 (memory_records_well_formed Sample.chart Sample.Order Sample.create_order
                  Sample.double_order Sample.random_order
                  [Turn (Sample.battle (Some "rival") (Some 1%nat));
                   Finished (Sample.battle None (Some 1%nat))]) "_unknown_").
  vm_compute. reflexivity.
Defined.
